(** * pkg/queue/databusc/consumer.go: the Kafka consumer front-end

    A shallow embedding of [consumer.go]: the construction of the consumer
    ([NewConsumer]), the dispatcher ([SendToChannel]), the poll/event loop
    spawned by [Start], the worker goroutines, [Close] and [CommitMessage],
    as a labelled transition system over an explicit program state.  A label
    is one scheduling choice together with the answer of the environment
    (what the transport returned), so that a run is a list of labels and can
    be evaluated.

    Conventions.  The [int] of Go is 64 bits wide.  Goroutines interleave at
    the granularity of the labels, over one memory that all of them see the
    same way.  [Start] and [Close] are called at most once each.  The
    transport is opaque: what is called on it is recorded, what it answers
    comes with the label.  Line numbers are those of [consumer.go]. *)

From Stdlib Require Import ZArith Ascii String.
From stdpp Require Import base option list gmap strings.

Local Open Scope string_scope.
Local Open Scope list_scope.
Local Open Scope Z_scope.

(** ** Go primitives used by the file *)

Module Go.

(** Conversion [int32(x)] of a wider integer: two's complement wrap-around. *)
Definition int32 (z : Z) : Z := (z + 2 ^ 31) mod 2 ^ 32 - 2 ^ 31.

(** [a % b] on integers: the remainder of the truncated division, a run-time
    panic ([None]) when the divisor is zero. *)
Definition rem (a b : Z) : option Z :=
  if b =? 0 then None else Some (Z.rem a b).

(** Range of the 64-bit [int]. *)
Definition is_int (z : Z) : bool := (- 2 ^ 63 <=? z) && (z <? 2 ^ 63).

Definition digit_char (d : Z) : ascii := ascii_of_nat (48 + Z.to_nat d).

Definition digit_of (c : ascii) : option Z :=
  let n := Z.of_nat (nat_of_ascii c) in
  if (48 <=? n) && (n <=? 57) then Some (n - 48) else None.

(** Decimal digits of a non-negative number, most significant first, put in
    front of [acc].  Twenty digits are enough for any 64-bit value. *)
Fixpoint utoa_aux (fuel : nat) (n : Z) (acc : string) : string :=
  let acc' := String (digit_char (n mod 10)) acc in
  match fuel with
  | O => acc'
  | S f => if n <? 10 then acc' else utoa_aux f (n / 10) acc'
  end.

Definition utoa (n : Z) : string := utoa_aux 19 n "".

(** [fmt.Sprintf("%d", z)]. *)
Definition itoa (z : Z) : string :=
  if z <? 0 then String "-" (utoa (- z)) else utoa z.

Fixpoint parse_digits (acc : Z) (s : string) : option Z :=
  match s with
  | "" => Some acc
  | String c r =>
      match digit_of c with
      | Some d => parse_digits (10 * acc + d) r
      | None => None
      end
  end.

(** [strconv.Atoi]: an optional sign, at least one decimal digit, nothing
    else, and a value that fits [int]; [None] is the returned error. *)
Definition Atoi (s : string) : option Z :=
  match s with
  | "" => None
  | String c r =>
      let neg := Ascii.eqb c "-" in
      let body := if neg || Ascii.eqb c "+" then r else s in
      match body with
      | "" => None
      | _ =>
          match parse_digits 0 body with
          | Some v =>
              let n := if neg then - v else v in
              if is_int n then Some n else None
          | None => None
          end
      end
  end.

End Go.

(** ** Data model *)

(** [kafka.Message], as far as this file reads it: the key, the partition of
    [TopicPartition] (an [int32]) and the offset. *)
Record Message := mkMessage {
  Key : string;
  Partition : Z;
  Offset : Z
}.

#[global] Instance Message_eq_dec : EqDecision Message.
Proof. solve_decision. Defined.

(** What a call of the user's [DealMessage] does: it returns (an error or
    nil), or it panics.  A nil handler is one that always panics. *)
Inductive Outcome :=
  | Returned (err : option string)
  | Panicked (r : string).

(** [ConsumerParam]. [Dealhanle] is the [ConsumerDeal] interface value, seen
    through its only method. *)
Record ConsumerParam := mkParam {
  Address : string;
  GroupId : string;
  Topic : string;
  Dealhanle : Message -> Outcome;
  ConsumerMode : Z;
  AutoCommitMode : Z;
  ThreadNum : Z
}.

Definition set_ThreadNum (n : Z) (p : ConsumerParam) : ConsumerParam :=
  {| Address := Address p; GroupId := GroupId p; Topic := Topic p;
     Dealhanle := Dealhanle p; ConsumerMode := ConsumerMode p;
     AutoCommitMode := AutoCommitMode p; ThreadNum := n |}.

Inductive Result (A : Type) :=
  | Ok (a : A)
  | Err (e : string).
Arguments Ok {A} a.
Arguments Err {A} e.

(** ** The hash ring *)

(** Modelled from the spec: the ring walk inside [Consistent.Get], which is
    not in this file: which of the members owns a key.  Any deterministic
    choice of a member is an instance of it. *)
Class RingWalk := locate : list string -> string -> nat.

Module Ring.
Section Ring.
Context {walk : RingWalk}.

(** Modelled from the spec: the type [Consistent] with [New], [Add] and
    [Get] belongs to the package but is not in this file.  The spec gives
    its contract: [Get] is a pure function of the membership and the key,
    it returns one of the members, and an error only on an empty ring. *)
Record Consistent := mkRing { members : list string }.

(** Modelled from the spec: [New()], the ring without members. *)
Definition New : Consistent := {| members := [] |}.

(** Modelled from the spec: [Add(elt)], one more member. *)
Definition Add (elt : string) (c : Consistent) : Consistent :=
  {| members := members c ++ [elt] |}.

(** Modelled from the spec: [Get(name)], the member that owns the key, an
    error on the empty ring. *)
Definition Get (c : Consistent) (name : string) : Result string :=
  match members c !! (locate (members c) name `mod` length (members c))%nat with
  | Some elt => Ok elt
  | None => Err "empty circle"
  end.

End Ring.
End Ring.

Import Ring.

(** ** Program state *)

(** Values of a [kafka.ConfigMap]. *)
Inductive ConfigValue :=
  | CStr (s : string)
  | CInt (z : Z)
  | CBool (b : bool).

(** What the poll loop can receive from the transport. *)
Inductive Event :=
  | EvMessage (e : Message)
  | EvError (code : Z)
  | EvAssignedPartitions (partitions : list Z)
  | EvRevokedPartitions
  | EvPartitionEOF
  | EvOther.

(** Calls made on the transport handle, and the sleeps. *)
Inductive Action :=
  | SubscribeTopics (topic : string)
  | Poll (timeoutMs : Z)
  | Commit
  | CommitMessage (m : Message)
  | Assign (partitions : list Z)
  | Unassign
  | CloseConsumer
  | Sleep (seconds : Z).

#[global] Instance Action_eq_dec : EqDecision Action.
Proof. solve_decision. Defined.

(** Lines written by [log.Error] and [log.Info], one constructor per call
    site of the file. *)
Inductive LogEntry :=
  | LogDealChanException (r : string) (index : nat)
  | LogDealChanClosed (index : nat)
  | LogStartException (r : string)
  | LogSubscribeError
  | LogConsumerError (code : Z)
  | LogIgnored
  | LogAssignedPartitions
  | LogRevokedPartitions
  | LogPartitionEOF
  | LogStartExit
  | LogWaitClose
  | LogClosed.

(** [kafka.ErrAllBrokersDown]. *)
Definition ErrAllBrokersDown : Z := -187.

(** A buffered channel of messages. *)
Record Chan := mkChan {
  buf : list Message;
  cap : nat;
  closed : bool
}.

Definition make_chan (n : nat) : Chan := {| buf := []; cap := n; closed := false |}.
Definition chan_push (m : Message) (c : Chan) : Chan :=
  {| buf := buf c ++ [m]; cap := cap c; closed := closed c |}.
Definition chan_pop (c : Chan) : Chan :=
  {| buf := tail (buf c); cap := cap c; closed := closed c |}.
Definition chan_close (c : Chan) : Chan :=
  {| buf := buf c; cap := cap c; closed := true |}.

(** [consumerEvent].  [param] is a pointer: the address, in the heap of the
    program, of the [ConsumerParam] the caller allocated.  [exit] is [None]
    for the nil channel.  The transport handle [consumer] is opaque: the calls
    made on it are recorded in the state below. *)
Record consumerEvent := mkHandle {
  isclose : bool;
  param : nat;
  config : gmap string ConfigValue;
  wg : Z;
  exit : option (list Z);
  queuelist : list Chan;
  sis : Consistent
}.

Definition set_isclose (b : bool) (h : consumerEvent) : consumerEvent :=
  {| isclose := b; param := param h; config := config h; wg := wg h;
     exit := exit h; queuelist := queuelist h; sis := sis h |}.
Definition set_wg (n : Z) (h : consumerEvent) : consumerEvent :=
  {| isclose := isclose h; param := param h; config := config h; wg := n;
     exit := exit h; queuelist := queuelist h; sis := sis h |}.
Definition set_exit (e : option (list Z)) (h : consumerEvent) : consumerEvent :=
  {| isclose := isclose h; param := param h; config := config h; wg := wg h;
     exit := e; queuelist := queuelist h; sis := sis h |}.
Definition set_queuelist (q : list Chan) (h : consumerEvent) : consumerEvent :=
  {| isclose := isclose h; param := param h; config := config h; wg := wg h;
     exit := exit h; queuelist := q; sis := sis h |}.

(** Where the goroutine spawned by [Start] stands. *)
Inductive LoopPc :=
  | NotStarted
  | Subscribing                                    (* lines 161-169 *)
  | Looping (index : Z)                            (* line 173, at the test *)
  | Awaiting (index : Z)                           (* line 175 or 196, in Poll
                                                      or in the select *)
  | Sending (index : Z) (msg : Message) (mod_ : Z) (* line 141, in SendToChannel *)
  | Finished                                       (* after wg.Done() *)
  | Crashed.                                       (* panic recovered at 155-159 *)

Inductive WorkerPc :=
  | Receiving                                      (* line 108 *)
  | Gone.                                          (* the goroutine returned *)

Inductive ClosePc :=
  | CloseNotCalled
  | CloseSignalling                                (* line 235, handle.exit <- 1 *)
  | CloseWaiting                                   (* line 238, wg.Wait() *)
  | CloseQueues (i : Z)                            (* lines 239-241, at the test *)
  | CloseLogging                                   (* line 243 *)
  | CloseReturned.

(** The whole program state: the heap with the caller's parameter object, the
    handle, the three kinds of threads, and the history of what was observed
    from outside (transport calls, log lines, completed enqueues, handler
    invocations), oldest first. *)
Record Sys := mkSys {
  heap : gmap nat ConsumerParam;
  hd : consumerEvent;
  loop : LoopPc;
  workers : list WorkerPc;
  closing : ClosePc;
  calls : list Action;
  logged : list LogEntry;
  sent : list Message;
  invoked : list (nat * Message)
}.

Definition upd_hd (f : consumerEvent -> consumerEvent) (s : Sys) : Sys :=
  {| heap := heap s; hd := f (hd s); loop := loop s; workers := workers s;
     closing := closing s; calls := calls s; logged := logged s;
     sent := sent s; invoked := invoked s |}.
Definition set_loop (pc : LoopPc) (s : Sys) : Sys :=
  {| heap := heap s; hd := hd s; loop := pc; workers := workers s;
     closing := closing s; calls := calls s; logged := logged s;
     sent := sent s; invoked := invoked s |}.
Definition set_workers (w : list WorkerPc) (s : Sys) : Sys :=
  {| heap := heap s; hd := hd s; loop := loop s; workers := w;
     closing := closing s; calls := calls s; logged := logged s;
     sent := sent s; invoked := invoked s |}.
Definition set_closing (c : ClosePc) (s : Sys) : Sys :=
  {| heap := heap s; hd := hd s; loop := loop s; workers := workers s;
     closing := c; calls := calls s; logged := logged s;
     sent := sent s; invoked := invoked s |}.
Definition emit (a : list Action) (s : Sys) : Sys :=
  {| heap := heap s; hd := hd s; loop := loop s; workers := workers s;
     closing := closing s; calls := calls s ++ a; logged := logged s;
     sent := sent s; invoked := invoked s |}.
Definition say (l : list LogEntry) (s : Sys) : Sys :=
  {| heap := heap s; hd := hd s; loop := loop s; workers := workers s;
     closing := closing s; calls := calls s; logged := logged s ++ l;
     sent := sent s; invoked := invoked s |}.
Definition note_sent (m : Message) (s : Sys) : Sys :=
  {| heap := heap s; hd := hd s; loop := loop s; workers := workers s;
     closing := closing s; calls := calls s; logged := logged s;
     sent := sent s ++ [m]; invoked := invoked s |}.
Definition note_invoked (i : nat) (m : Message) (s : Sys) : Sys :=
  {| heap := heap s; hd := hd s; loop := loop s; workers := workers s;
     closing := closing s; calls := calls s; logged := logged s;
     sent := sent s; invoked := invoked s ++ [(i, m)] |}.

(** One scheduling choice, with the answer of the environment where the
    thread asks it something. *)
Inductive Label :=
  | LStart                      (* the caller runs Start() *)
  | LSubscribe (ok : bool)      (* SubscribeTopics returns nil or an error *)
  | LLoopTurn                   (* the loop test sees the flag unset *)
  | LPoll (ev : option Event)   (* Poll(100) returns, in poll mode *)
  | LExit                       (* select takes the exit channel *)
  | LEvent (ev : Event)         (* select takes the events channel *)
  | LSend                       (* the blocked enqueue goes through *)
  | LLoopExit                   (* the loop test sees isclose *)
  | LWorker (i : nat)           (* worker i takes its next turn *)
  | LCloseBegin                 (* the caller runs Close(): the flag is set *)
  | LCloseSignal                (* the send on the exit channel goes through *)
  | LCloseWaited                (* wg.Wait() returns *)
  | LCloseQueue                 (* Close() closes its next queue *)
  | LCloseTransport             (* Close() closes the transport *)
  | LCloseEnd                   (* Close() logs and returns *)
  | LCommitMessage (m : Message). (* the caller runs CommitMessage(m) *)

(** ** The operations *)

(** The constructor of the transport, [kafka.NewConsumer]: [Some err] when
    it fails. *)
Class Transport := kafka_NewConsumer : gmap string ConfigValue -> option string.

Section Consumer.
Import Go.

Context {walk : RingWalk} {transport : Transport}.

(** Lines 59-72. [now] and [pid] are [time.Now().Unix()] and [os.Getpid()]. *)
Definition new_config (p : ConsumerParam) (now pid Id : Z)
  : gmap string ConfigValue :=
  let c := ∅ in
  let c := <["bootstrap.servers" := CStr (Address p)]> c in
  let c := <["broker.address.family" := CStr "v4"]> c in
  let c := <["group.id" := CStr (GroupId p)]> c in
  let c := <["session.timeout.ms" := CInt 6000]> c in
  let c := <["client.id" :=
               CStr ("rdkafka-" +:+ itoa now +:+ "-" +:+ itoa pid +:+ "-" +:+ itoa Id)]> c in
  let c := <["auto.offset.reset" := CStr "latest"]> c in
  let c := <["enable.auto.commit" := CBool true]> c in
  let c := <["enable.auto.offset.store" := CBool true]> c in
  let c := <["socket.keepalive.enable" := CBool true]> c in
  let c := <["go.events.channel.enable" := CBool true]> c in
  let c := <["enable.partition.eof" := CBool true]> c in
  c.

(** Lines 91-95. *)
Definition new_ring (n : nat) : Consistent :=
  foldl (fun c i => Add (itoa (Z.of_nat i)) c) New (seq 0 n).

(** [NewConsumer]: [None] when [param] is not a valid pointer, an error
    when the transport cannot be created, otherwise the state of the
    program after the call, with the worker goroutines spawned.  The
    default of [ThreadNum] is written through [handle.param], that is, into
    the caller's object. *)
Definition NewConsumer (now pid : Z) (mem : gmap nat ConsumerParam)
    (param : nat) (Id : Z) : option (Result Sys) :=
  match mem !! param with
  | None => None
  | Some p =>
      let config := new_config p now pid Id in
      match kafka_NewConsumer config with
      | Some err => Some (Err err)
      | None =>
          let exit := if ConsumerMode p =? 1 then Some [] else None in
          let mem :=
            if ThreadNum p <=? 0 then <[param := set_ThreadNum 51 p]> mem
            else mem in
          match mem !! param with
          | None => None
          | Some p =>
              let n := Z.to_nat (ThreadNum p) in
              Some (Ok {|
                heap := mem;
                hd := {| isclose := false; param := param; config := config;
                         wg := 1; exit := exit;
                         queuelist := replicate n (make_chan 2);
                         sis := new_ring n |};
                loop := NotStarted;
                workers := replicate n Receiving;
                closing := CloseNotCalled;
                calls := []; logged := []; sent := []; invoked := [] |})
          end
      end
  end.

(** Lines 123-139 of [SendToChannel]: the queue index, or [None] when the
    remainder panics. *)
Definition route (p : ConsumerParam) (h : consumerEvent) (msg : Message)
  : option Z :=
  let key := Key msg in
  let '(mod_, iseffective) :=
    if negb (String.eqb key "") then
      match Get (sis h) key with
      | Ok modstr =>
          match Atoi modstr with
          | Some convstr => (int32 convstr, true)
          | None => (0, false)
          end
      | Err _ => (0, false)
      end
    else (0, false) in
  if iseffective then Some mod_
  else rem (Partition msg) (int32 (ThreadNum p)).

(** [handle.queuelist[mod]]: [None] is the index-out-of-range panic. *)
Definition chan_at (h : consumerEvent) (mod_ : Z) : option Chan :=
  if mod_ <? 0 then None else queuelist h !! Z.to_nat mod_.

(** Lines 142-150: the transport calls made after the enqueue, and the
    value of the parameter [index] when [SendToChannel] returns. *)
Definition commit_policy (p : ConsumerParam) (msg : Message) (index : Z)
  : list Action * Z :=
  if AutoCommitMode p =? 0 then
    let '(acts, index) := if index >? 1000 then ([Commit], 0) else ([], index) in
    (acts, index + 1)
  else if AutoCommitMode p =? 1 then ([CommitMessage msg], index)
  else ([], index).

(** A panic in the goroutine of [Start]: lines 155-159 log it and the
    goroutine returns; [wg.Done()] is not reached. *)
Definition crash (r : string) (s : Sys) : Sys :=
  say [LogStartException r] (set_loop Crashed s).

(** Entering [SendToChannel(e, index)], up to the enqueue of line 141. *)
Definition enter_send (p : ConsumerParam) (index : Z) (e : Message) (s : Sys)
  : Sys :=
  match route p (hd s) e with
  | None => crash "integer divide by zero" s
  | Some mod_ =>
      match chan_at (hd s) mod_ with
      | None => crash "index out of range" s
      | Some _ => set_loop (Sending index e mod_) s
      end
  end.

(** The enqueue of line 141 and the rest of [SendToChannel]; [None] while
    the queue is full.  [index] is a parameter passed by value: what
    [SendToChannel] does to it is lost on return, and the loop goes on with
    its own variable. *)
Definition finish_send (p : ConsumerParam) (index : Z) (msg : Message)
    (mod_ : Z) (s : Sys) : option Sys :=
  match chan_at (hd s) mod_ with
  | None => None
  | Some q =>
      if closed q then Some (crash "send on closed channel" s)
      else if decide (length (buf q) < cap q)%nat then
        let qs := <[Z.to_nat mod_ := chan_push msg q]> (queuelist (hd s)) in
        let s := note_sent msg (upd_hd (set_queuelist qs) s) in
        let '(acts, _) := commit_policy p msg index in
        Some (set_loop (Looping index) (emit acts s))
      else None
  end.

(** Lines 175-194: [Poll(100)] has returned [ev], no event after the
    timeout; what the loop does with it. *)
Definition on_poll (p : ConsumerParam) (index : Z) (ev : option Event)
    (s : Sys) : Sys :=
  let s := emit [Poll 100] s in
  match ev with
  | None => s
  | Some (EvMessage e) => enter_send p index e s
  | Some (EvError code) =>
      let s := say [LogConsumerError code] s in
      if code =? ErrAllBrokersDown then emit [Sleep 1] s else s
  | Some _ => say [LogIgnored] s
  end.

(** Lines 200-216, an event taken from [Events()]. *)
Definition on_event (p : ConsumerParam) (index : Z) (ev : Event) (s : Sys)
  : Sys :=
  match ev with
  | EvAssignedPartitions ps => emit [Assign ps] (say [LogAssignedPartitions] s)
  | EvRevokedPartitions => emit [Unassign] (say [LogRevokedPartitions] s)
  | EvMessage e => enter_send p index e s
  | EvPartitionEOF => say [LogPartitionEOF] s
  | EvError code => say [LogConsumerError code] s
  | EvOther => say [LogIgnored] s
  end.

(** Lines 107-115 under the guard of lines 101-105: one turn of worker [i].
    The value returned by [DealMessage] is dropped.  A panic of the handler
    leaves the [for] loop: the deferred function logs it and the goroutine
    returns. *)
Definition worker_turn (p : ConsumerParam) (i : nat) (s : Sys) : option Sys :=
  match workers s !! i, queuelist (hd s) !! i with
  | Some Receiving, Some q =>
      match buf q with
      | msg :: _ =>
          let qs := <[i := chan_pop q]> (queuelist (hd s)) in
          let s := note_invoked i msg (upd_hd (set_queuelist qs) s) in
          match Dealhanle p msg with
          | Returned _ => Some s
          | Panicked r =>
              Some (say [LogDealChanException r i]
                      (set_workers (<[i := Gone]> (workers s)) s))
          end
      | [] =>
          if closed q then
            Some (say [LogDealChanClosed i]
                    (set_workers (<[i := Gone]> (workers s)) s))
          else None
      end
  | _, _ => None
  end.

(** Lines 233-234 and 237 of [Close]: the flag is set; in channel mode the
    exit signal is to be sent next, otherwise [Close] goes on to wait. *)
Definition close_begin (p : ConsumerParam) (s : Sys) : Sys :=
  let s := upd_hd (set_isclose true) s in
  if ConsumerMode p =? 1 then set_closing CloseSignalling s
  else set_closing CloseWaiting (say [LogWaitClose] s).

(** Lines 235-237 of [Close]: the send on the exit channel, whose buffer
    holds one value; [None] while it blocks (for ever on the nil channel). *)
Definition close_signal (s : Sys) : option Sys :=
  match exit (hd s) with
  | Some [] =>
      Some (set_closing CloseWaiting
              (say [LogWaitClose] (upd_hd (set_exit (Some [1])) s)))
  | _ => None
  end.

(** Line 238 of [Close]: [wg.Wait()] returns when the counter is 0. *)
Definition close_waited (s : Sys) : option Sys :=
  if wg (hd s) =? 0 then Some (set_closing (CloseQueues 0) s) else None.

(** Lines 239-241 of [Close], one turn of the loop with [i] below
    [ThreadNum]: [close(handle.queuelist[i])].  [None] where the statement
    panics (no such queue, or a queue that is closed already): the caller's
    goroutine has no [recover]. *)
Definition close_queue (p : ConsumerParam) (i : Z) (s : Sys) : option Sys :=
  if i <? ThreadNum p then
    match chan_at (hd s) i with
    | Some q =>
        if closed q then None
        else
          let qs := <[Z.to_nat i := chan_close q]> (queuelist (hd s)) in
          Some (set_closing (CloseQueues (i + 1)) (upd_hd (set_queuelist qs) s))
    | None => None
    end
  else None.

(** Lines 239 and 242 of [Close]: the loop over the queues is left and the
    transport is closed. *)
Definition close_transport (p : ConsumerParam) (i : Z) (s : Sys) : option Sys :=
  if i <? ThreadNum p then None
  else Some (set_closing CloseLogging (emit [CloseConsumer] s)).

(** Lines 243-244 of [Close]. *)
Definition close_end (s : Sys) : Sys :=
  set_closing CloseReturned (say [LogClosed] s).

(** One step of the program.  [None]: the label is not enabled in this
    state (the thread is elsewhere, or blocked).  The test of line 173 is a
    step of its own: while the loop is in [Poll] or in the [select], [Close]
    may set the flag, and what arrives then is still dispatched.  In the
    [select] the exit channel is ready when it holds a value, and never when
    it is nil. *)
Definition step (l : Label) (s : Sys) : option Sys :=
  match heap s !! param (hd s) with
  | None => None
  | Some p =>
      match l, loop s with
      | LStart, NotStarted => Some (set_loop Subscribing s)
      | LSubscribe ok, Subscribing =>
          let s := emit [SubscribeTopics (Topic p)] s in
          if ok then Some (set_loop (Looping 0) s)
          else Some (emit [Sleep 1] (say [LogSubscribeError] s))
      | LLoopTurn, Looping index =>
          if isclose (hd s) then None else Some (set_loop (Awaiting index) s)
      | LPoll ev, Awaiting index =>
          if ConsumerMode p =? 0
          then Some (on_poll p index ev (set_loop (Looping index) s)) else None
      | LExit, Awaiting index =>
          if ConsumerMode p =? 0 then None
          else
            match exit (hd s) with
            | Some (_ :: rest) =>
                Some (set_loop (Looping index) (upd_hd (set_exit (Some rest)) s))
            | _ => None
            end
      | LEvent ev, Awaiting index =>
          if ConsumerMode p =? 0 then None
          else Some (on_event p index ev (set_loop (Looping index) s))
      | LSend, Sending index msg mod_ => finish_send p index msg mod_ s
      | LLoopExit, Looping index =>
          if isclose (hd s) then
            let s := if negb (AutoCommitMode p =? 1) then emit [Commit] s else s in
            Some (set_loop Finished
                    (say [LogStartExit] (upd_hd (set_wg (wg (hd s) - 1)) s)))
          else None
      | LWorker i, _ => worker_turn p i s
      | LCloseBegin, _ =>
          match closing s with
          | CloseNotCalled => Some (close_begin p s)
          | _ => None
          end
      | LCloseSignal, _ =>
          match closing s with
          | CloseSignalling => close_signal s
          | _ => None
          end
      | LCloseWaited, _ =>
          match closing s with
          | CloseWaiting => close_waited s
          | _ => None
          end
      | LCloseQueue, _ =>
          match closing s with
          | CloseQueues i => close_queue p i s
          | _ => None
          end
      | LCloseTransport, _ =>
          match closing s with
          | CloseQueues i => close_transport p i s
          | _ => None
          end
      | LCloseEnd, _ =>
          match closing s with
          | CloseLogging => Some (close_end s)
          | _ => None
          end
      | LCommitMessage m, _ => Some (emit [CommitMessage m] s)
      | _, _ => None
      end
  end.

(** A run: the labels taken one after the other. *)
Fixpoint exec (ls : list Label) (s : Sys) : option Sys :=
  match ls with
  | [] => Some s
  | l :: ls =>
      match step l s with
      | Some s' => exec ls s'
      | None => None
      end
  end.

(** ** Observations on a state *)

(** Number of bulk commits issued so far. *)
Definition commits (s : Sys) : nat :=
  length (filter (fun a => a = Commit) (calls s)).

(** The messages worker [i] has passed to the handler, in order. *)
Definition invoked_by (i : nat) (s : Sys) : list Message :=
  (filter (fun x => x.1 = i) (invoked s)).*2.

(** The messages waiting in the queue of worker [i]. *)
Definition waiting (i : nat) (s : Sys) : list Message :=
  match queuelist (hd s) !! i with
  | Some q => buf q
  | None => []
  end.

(** [Close()] has not been called, or has not got past [wg.Wait()]. *)
Definition close_pending (c : ClosePc) : bool :=
  match c with
  | CloseNotCalled | CloseSignalling | CloseWaiting => true
  | _ => false
  end.

(** The enqueued messages that were routed to worker [i], in the order of
    their dispatch. *)
Definition sent_to (p : ConsumerParam) (i : nat) (s : Sys) : list Message :=
  filter (fun m => route p (hd s) m = Some (Z.of_nat i)) (sent s).

(** ** What the runs are checked against *)

(** What no step changes: the heap (hence the caller's parameter object), the
    pointer, the configuration map, the ring, the number and the capacities
    of the queues, the number of workers. *)
Record same_frame (s s' : Sys) : Prop := {
  frame_heap : heap s' = heap s;
  frame_param : param (hd s') = param (hd s);
  frame_config : config (hd s') = config (hd s);
  frame_sis : sis (hd s') = sis (hd s);
  frame_caps : cap <$> queuelist (hd s') = cap <$> queuelist (hd s);
  frame_workers : length (workers s') = length (workers s)
}.

(** What holds of every state the program reaches, [p] being the parameter
    object the handle points to: the loop counter of [Start] is still 0, a
    pending enqueue goes to the queue that [route] names, every worker has
    handled a prefix of what was routed to it and its queue holds the rest,
    and a bulk commit was issued only when the loop was left. *)
Record inv (p : ConsumerParam) (s : Sys) : Prop := {
  inv_param : heap s !! param (hd s) = Some p;
  inv_loop :
    match loop s with
    | Sending index msg mod_ => index = 0 /\ route p (hd s) msg = Some mod_
    | Looping index | Awaiting index => index = 0
    | _ => True
    end;
  inv_fifo : forall i, invoked_by i s ++ waiting i s = sent_to p i s;
  inv_commits :
    commits s =
    match loop s with
    | Finished => if AutoCommitMode p =? 1 then 0%nat else 1%nat
    | _ => 0%nat
    end
}.

(** The parameter object as [NewConsumer] leaves it (lines 87-89). *)
Definition effective (p : ConsumerParam) : ConsumerParam :=
  if ThreadNum p <=? 0 then set_ThreadNum 51 p else p.

(** The printed worker numbers ["0"], ["1"], ... *)
Definition worker_ids (n : nat) : list string :=
  (fun i => itoa (Z.of_nat i)) <$> seq 0 n.

(** The destination of a message in the words of the specification: the
    answer of the ring when it reads as a number from 0 up to the worker
    count, otherwise the partition modulo the worker count. *)
Definition spec_destination (n : Z) (ring : Consistent) (msg : Message) : Z :=
  let fallback := Partition msg mod n in
  if negb (String.eqb (Key msg) "") then
    match Get ring (Key msg) with
    | Ok modstr =>
        match Atoi modstr with
        | Some v => if (0 <=? v) && (v <? n) then v else fallback
        | None => fallback
        end
    | Err _ => fallback
    end
  else fallback.

End Consumer.

(** ** Sample collaborators and inputs *)

Definition sample_walk : RingWalk := fun members key => String.length key.
Definition sample_transport : Transport := fun _ => None.

Definition deal_ok : Message -> Outcome := fun _ => Returned None.
Definition deal_fail : Message -> Outcome := fun _ => Returned (Some "rejected").
Definition deal_panic_on (k : string) : Message -> Outcome :=
  fun m => if String.eqb (Key m) k then Panicked "nil map" else Returned None.

Definition sample_param (deal : Message -> Outcome) (cmode amode threads : Z)
  : ConsumerParam :=
  {| Address := "127.0.0.1:9092"; GroupId := "orders"; Topic := "events";
     Dealhanle := deal; ConsumerMode := cmode; AutoCommitMode := amode;
     ThreadNum := threads |}.

Definition keyless (partition : Z) : Message :=
  {| Key := ""; Partition := partition; Offset := 0 |}.
Definition keyed (k : string) (partition offset : Z) : Message :=
  {| Key := k; Partition := partition; Offset := offset |}.

(** The caller's heap: one parameter object, at address 1. *)
Definition sample_heap (p : ConsumerParam) : gmap nat ConsumerParam :=
  {[ 1%nat := p ]}.

(** The state after [NewConsumer] on that heap, taken out of its result, and
    the state after a run from there ([blank] stands for "no such state"). *)
Definition blank : Sys :=
  {| heap := ∅;
     hd := {| isclose := false; param := 0%nat; config := ∅; wg := 0;
              exit := None; queuelist := []; sis := New |};
     loop := NotStarted; workers := []; closing := CloseNotCalled;
     calls := []; logged := []; sent := []; invoked := [] |}.

Definition built (p : ConsumerParam) : Sys :=
  match NewConsumer (transport := sample_transport) 1700000000 4242
          (sample_heap p) 1%nat 7 with
  | Some (Ok s) => s
  | _ => blank
  end.

Definition ran (p : ConsumerParam) (ls : list Label) : Sys :=
  match exec (walk := sample_walk) ls (built p) with
  | Some s => s
  | None => blank
  end.

(** What [Close()] does once the loop has finished, with [k] queues. *)
Definition sample_close (k : nat) : list Label :=
  [LCloseWaited] ++ replicate k LCloseQueue ++ [LCloseTransport; LCloseEnd].

(** [Start()], a subscription that succeeds, then [n] times: a keyless message
    of partition 1 is polled, enqueued and handled by worker 1; then
    [Close()], with [k] queues to close. *)
Definition sample_schedule (k n : nat) : list Label :=
  [LStart; LSubscribe true]
  ++ concat (replicate n [LLoopTurn; LPoll (Some (EvMessage (keyless 1)));
                          LSend; LWorker 1%nat])
  ++ [LCloseBegin; LLoopExit] ++ sample_close k.

(** Two messages of one key, from different partitions. *)
Definition msgA : Message := keyed "user-42" 0 100.
Definition msgB : Message := keyed "user-42" 5 101.

(** Both are polled and enqueued, no worker has run yet. *)
Definition sample_two_enqueued : list Label :=
  [LStart; LSubscribe true;
   LLoopTurn; LPoll (Some (EvMessage msgA)); LSend;
   LLoopTurn; LPoll (Some (EvMessage msgB)); LSend].

(** Parameter objects: worker count unset; four workers in each of the three
    commit modes; a handler that fails; a handler that panics. *)
Definition p_unset : ConsumerParam := sample_param deal_ok 0 0 0.
Definition p_four : ConsumerParam := sample_param deal_ok 0 0 4.
Definition p_sync : ConsumerParam := sample_param deal_ok 0 1 4.
Definition p_auto : ConsumerParam := sample_param deal_ok 0 2 4.
Definition p_fail : ConsumerParam := sample_param deal_fail 0 2 1.
Definition p_panic : ConsumerParam := sample_param (deal_panic_on "user-42") 0 2 2.

(** [Start()] and a subscription that succeeds; the loop is in [Poll]. *)
Definition sample_started : list Label := [LStart; LSubscribe true; LLoopTurn].

(** Eight keyless messages from the partitions 0,1,2,3,0,1,2,3, each polled
    and enqueued; no worker has run. *)
Definition sample_eight : list Label :=
  [LStart; LSubscribe true]
  ++ concat ((fun x => [LLoopTurn; LPoll (Some (EvMessage (keyless x))); LSend])
             <$> [0; 1; 2; 3; 0; 1; 2; 3]).


(** One keyless message polled and enqueued, not yet handled. *)
Definition sample_one_enqueued : list Label :=
  [LStart; LSubscribe true;
   LLoopTurn; LPoll (Some (EvMessage (keyless 0))); LSend].

(** [Start()], [Close()] up to its wait, and [n] failed subscriptions. *)
Definition sample_failing_subscription (n : nat) : list Label :=
  LStart :: LCloseBegin :: replicate n (LSubscribe false).

(** ** More of what the runs are checked against *)

Section Lifecycle.
Import Go.
Context {walk : RingWalk} {transport : Transport}.

(** The first [k] queues are closed and the others are open. *)
Definition closed_upto (k : nat) (qs : list Chan) : Prop :=
  closed <$> qs = replicate k true ++ replicate (length qs - k) false.

(** How many queues [Close()] has closed. *)
Definition queues_closed (s : Sys) : nat :=
  match closing s with
  | CloseQueues i => Z.to_nat i
  | CloseLogging | CloseReturned => length (queuelist (hd s))
  | _ => 0
  end.

(** How the flag, the wait group, the exit channel, the queues and the
    transport stand with respect to where the loop and [Close] are, [p]
    being the parameter object the handle points to. *)
Record lifecycle (p : ConsumerParam) (s : Sys) : Prop := {
  life_param : heap s !! param (hd s) = Some p;
  life_queues : length (queuelist (hd s)) = Z.to_nat (ThreadNum p);
  life_room :
    Forall (fun q => (length (buf q) <= cap q)%nat /\ cap q = 2%nat)
           (queuelist (hd s));
  life_wg : wg (hd s) = match loop s with Finished => 0 | _ => 1 end;
  life_flag :
    isclose (hd s) = match closing s with CloseNotCalled => false | _ => true end;
  life_finished : loop s = Finished -> isclose (hd s) = true;
  life_exit :
    exit (hd s) = (if ConsumerMode p =? 1 then Some [] else None)
    \/ (exit (hd s) = Some [1] /\ ConsumerMode p = 1
        /\ closing s <> CloseNotCalled /\ closing s <> CloseSignalling);
  life_after : close_pending (closing s) = false -> loop s = Finished;
  life_bound :
    forall i, closing s = CloseQueues i ->
      0 <= i <= Z.of_nat (length (queuelist (hd s)));
  life_closed : closed_upto (queues_closed s) (queuelist (hd s));
  life_transport :
    filter (fun a => a = CloseConsumer) (calls s)
    = match closing s with
      | CloseLogging | CloseReturned => [CloseConsumer]
      | _ => []
      end
}.

(** The message that a label brings to the dispatcher, if any. *)
Definition carried (l : Label) : option Message :=
  match l with
  | LPoll (Some (EvMessage m)) | LEvent (EvMessage m) => Some m
  | _ => None
  end.

(** The message that the loop has taken and not yet enqueued. *)
Definition in_flight (s : Sys) : list Message :=
  match loop s with
  | Sending _ msg _ => [msg]
  | _ => []
  end.

(** The messages of the [CommitMessage] calls made so far, in order. *)
Definition committed_messages (s : Sys) : list Message :=
  omap (fun a => match a with CommitMessage m => Some m | _ => None end)
       (calls s).

(** Which transport calls belong to which consumer mode: [Poll] to the
    poll mode, [Assign] and [Unassign] to the channel mode, and a
    subscription is to the configured topic. *)
Definition call_fits_mode (p : ConsumerParam) (a : Action) : bool :=
  match a with
  | Poll _ => ConsumerMode p =? 0
  | Assign _ | Unassign => negb (ConsumerMode p =? 0)
  | SubscribeTopics topic => String.eqb topic (Topic p)
  | _ => true
  end.

(** What brings the loop back to its test once the flag is set: nothing
    when it is there already; in poll mode the return of [Poll(100)], here
    without event; otherwise the exit signal. *)
Definition wake_labels (p : ConsumerParam) (pc : LoopPc) : list Label :=
  match pc with
  | Awaiting _ => if ConsumerMode p =? 0 then [LPoll None] else [LExit]
  | _ => []
  end.

(** [Close()] from its first line to its last, with the turns of the loop
    that make it see the flag in between. *)
Definition close_labels (p : ConsumerParam) (pc : LoopPc) : list Label :=
  [LCloseBegin]
  ++ (if ConsumerMode p =? 1 then [LCloseSignal] else [])
  ++ wake_labels p pc
  ++ [LLoopExit; LCloseWaited]
  ++ replicate (Z.to_nat (ThreadNum p)) LCloseQueue
  ++ [LCloseTransport; LCloseEnd].

End Lifecycle.

(** ** The Swagger objects of the second part of the file *)

Module Swagger.
Import Go.

(** [strings.FieldsFunc(s, f)], for the [f] of [MarshalJSON] that holds of
    the runes of [".,。:"]; [json.Marshal]; and [sort.Slice], seen as a
    function of the comparison and of the slice.  All three are library
    code, taken as given. *)
Class SummaryFields := FieldsFunc : string -> list string.
Class JsonMarshal (V : Type) := json_Marshal : V -> Result string.
Class SliceSort :=
  sort_Slice : forall A : Type, (A -> A -> bool) -> list A -> list A.

(** [swaggerOperationObject], [swaggerPathItemObject] and
    [swaggerPathSummary], with the fields that the functions below read. *)
Record swaggerOperationObject := mkOperation { Summary : string }.

Record swaggerPathItemObject := mkPathItem {
  Get : option swaggerOperationObject;
  Delete : option swaggerOperationObject;
  Post : option swaggerOperationObject;
  Put : option swaggerOperationObject;
  Patch : option swaggerOperationObject
}.

Record swaggerPathSummary := mkPathSummary {
  ps_Path : string;
  ps_Summary : string
}.

(** [keyVal]; [Value] is an [interface{}]. *)
Record keyVal (V : Type) := mkKeyVal { Key : string; Value : V }.
Arguments Key {V} k.
Arguments Value {V} k.

(** [v.X != nil && len(v.X.Summary) > 0]. *)
Definition has_summary (o : option swaggerOperationObject) : bool :=
  match o with
  | Some op => (0 <? String.length (Summary op))%nat
  | None => false
  end.

Definition summary_of (o : option swaggerOperationObject) : string :=
  match o with
  | Some op => Summary op
  | None => ""
  end.

(** Lines 343-356: the summary under which a path is sorted. *)
Definition path_summary (k : string) (v : swaggerPathItemObject) : string :=
  if has_summary (Get v) then summary_of (Get v)
  else if has_summary (Post v) then summary_of (Post v)
  else if has_summary (Delete v) then summary_of (Delete v)
  else if has_summary (Put v) then summary_of (Put v)
  else if has_summary (Patch v) then summary_of (Patch v)
  else k.

(** Lines 337-362: the first loop of [swaggerPathsObject.MarshalJSON], over
    the pairs of the map in the order in which [range] yields them. *)
Fixpoint collect (kvs : list (string * swaggerPathItemObject))
    (psv : list swaggerPathSummary) : list swaggerPathSummary :=
  match kvs with
  | [] => psv
  | (k, v) :: kvs =>
      if (String.length k =? 0)%nat then collect kvs psv
      else collect kvs
             (psv ++ [{| ps_Path := k; ps_Summary := path_summary k v |}])
  end.

Section Paths.
Context {fields : SummaryFields} {sorter : SliceSort}.
Context {marshal_string : JsonMarshal string}
        {marshal_item : JsonMarshal swaggerPathItemObject}.

(** Lines 364-393: the comparison given to [sort.Slice], on the summaries
    of the two elements.  [None] is a non-nil error of [Atoi]. *)
Definition summary_less (si sj : string) : bool :=
  let rsi := FieldsFunc si in
  if (length rsi =? 0)%nat then false
  else
    let rsj := FieldsFunc sj in
    if (length rsj =? 0)%nat then true
    else
      let erri := Atoi (default "" (head rsi)) in
      let errj := Atoi (default "" (head rsj)) in
      if bool_decide (is_Some erri) && bool_decide (is_Some errj)
      then default 0 erri <? default 0 errj
      else if negb (bool_decide (is_Some erri)) then false
      else if negb (bool_decide (is_Some errj)) then true
      else String.ltb si sj.

(** Lines 395-420: the second loop, [i] being the index of the element. *)
Fixpoint write_paths (po : gmap string swaggerPathItemObject) (i : nat)
    (psv : list swaggerPathSummary) (buf : string) : Result string :=
  match psv with
  | [] => Ok buf
  | ps :: psv =>
      if (String.length (ps_Path ps) =? 0)%nat then write_paths po (S i) psv buf
      else
        let buf := if negb (i =? 0)%nat then buf +:+ "," else buf in
        match json_Marshal (ps_Path ps) with
        | Err e => Err e
        | Ok path =>
            let buf := buf +:+ path +:+ ":" in
            let item := default (mkPathItem None None None None None)
                                (po !! ps_Path ps) in
            match json_Marshal item with
            | Err e => Err e
            | Ok val => write_paths po (S i) psv (buf +:+ val)
            end
        end
  end.

(** [swaggerPathsObject.MarshalJSON], [kvs] being the pairs of [po] in the
    order of the [range] loop. *)
Definition paths_MarshalJSON (po : gmap string swaggerPathItemObject)
    (kvs : list (string * swaggerPathItemObject)) : Result string :=
  let psv := collect kvs [] in
  let psv := sort_Slice _ (fun a b => summary_less (ps_Summary a) (ps_Summary b)) psv in
  match write_paths po 0 psv "{" with
  | Err e => Err e
  | Ok buf => Ok (buf +:+ "}")
  end.

(** What the comparison comes down to: a summary whose first field is a
    number, one whose first field is something else, one without field. *)
Inductive Rank :=
  | Numbered (index : Z)
  | Unnumbered
  | NoField.

Definition summary_rank (s : string) : Rank :=
  match FieldsFunc s with
  | [] => NoField
  | f :: _ =>
      match Atoi f with
      | Some index => Numbered index
      | None => Unnumbered
      end
  end.

Definition rank_before (a b : Rank) : bool :=
  match a, b with
  | Numbered i, Numbered j => i <? j
  | Numbered _, _ => true
  | Unnumbered, NoField => true
  | _, _ => false
  end.

(** One entry of the object written by [write_paths]. *)
Definition path_entry (po : gmap string swaggerPathItemObject)
    (ps : swaggerPathSummary) : Result string :=
  match json_Marshal (ps_Path ps) with
  | Err e => Err e
  | Ok path =>
      match json_Marshal (default (mkPathItem None None None None None)
                                  (po !! ps_Path ps)) with
      | Err e => Err e
      | Ok val => Ok (path +:+ ":" +:+ val)
      end
  end.

End Paths.

Section Properties.
Context {V : Type} {marshal_string : JsonMarshal string}
        {marshal_value : JsonMarshal V}.

(** Lines 511-533, the loop of [swaggerSchemaObjectProperties.MarshalJSON],
    [i] being the index of the element. *)
Fixpoint write_properties (i : nat) (op : list (keyVal V)) (buf : string)
  : Result string :=
  match op with
  | [] => Ok buf
  | kv :: op =>
      let buf := if negb (i =? 0)%nat then buf +:+ "," else buf in
      match json_Marshal (Key kv) with
      | Err e => Err e
      | Ok key =>
          let buf := buf +:+ key +:+ ":" in
          match json_Marshal (Value kv) with
          | Err e => Err e
          | Ok val => write_properties (S i) op (buf +:+ val)
          end
      end
  end.

(** [swaggerSchemaObjectProperties.MarshalJSON]. *)
Definition properties_MarshalJSON (op : list (keyVal V)) : Result string :=
  match write_properties 0 op "{" with
  | Err e => Err e
  | Ok buf => Ok (buf +:+ "}")
  end.

(** One entry of the object written by [write_properties]. *)
Definition property_entry (kv : keyVal V) : Result string :=
  match json_Marshal (Key kv) with
  | Err e => Err e
  | Ok key =>
      match json_Marshal (Value kv) with
      | Err e => Err e
      | Ok val => Ok (key +:+ ":" +:+ val)
      end
  end.

End Properties.

(** The entries of a list, all of them or the first error. *)
Fixpoint all_entries {A} (entry : A -> Result string) (l : list A)
  : Result (list string) :=
  match l with
  | [] => Ok []
  | x :: l =>
      match entry x with
      | Err e => Err e
      | Ok s =>
          match all_entries entry l with
          | Err e => Err e
          | Ok ss => Ok (s :: ss)
          end
      end
  end.

(** Writing from index [i > 0] puts a comma before every entry. *)
Fixpoint with_commas (ss : list string) : string :=
  match ss with
  | [] => ""
  | s :: ss => "," +:+ s +:+ with_commas ss
  end.

End Swagger.

(** ** Further sample inputs *)

(** Two more messages of the key of [msgA] and [msgB]. *)
Definition msgC : Message := keyed "user-42" 2 102.
Definition msgD : Message := keyed "user-42" 7 103.

(** Worker 1 panics on [msgA] and returns; [msgC] fills its queue behind
    [msgB]; [msgD] is polled and routed to the same queue. *)
Definition sample_stalled : list Label :=
  sample_two_enqueued
  ++ [LWorker 1%nat; LLoopTurn; LPoll (Some (EvMessage msgC)); LSend;
      LLoopTurn; LPoll (Some (EvMessage msgD))].

(** What can still happen from there: [Close()] is called, and the caller
    commits a message. *)
Definition sample_retries : list Label := [LCloseBegin; LCommitMessage msgA].

(** A run with two messages and [Close()], after which worker 1 finds its
    queue closed. *)
Definition sample_drained : list Label :=
  sample_schedule 4 2 ++ [LWorker 1%nat].

(** Channel mode, per-message commits. *)
Definition p_channel : ConsumerParam := sample_param deal_ok 1 1 4.

(** A consumer mode that is neither 0 nor 1. *)
Definition p_other : ConsumerParam := sample_param deal_ok 2 0 4.

(** In channel mode: a rebalance, partitions assigned and then revoked. *)
Definition sample_rebalance : list Label :=
  [LStart; LSubscribe true;
   LLoopTurn; LEvent (EvAssignedPartitions [0; 1]);
   LLoopTurn; LEvent EvRevokedPartitions].

(** A run with two messages in which [Close()] has closed the first two of
    its four queues. *)
Definition sample_half_closed : list Label :=
  [LStart; LSubscribe true]
  ++ concat (replicate 2 [LLoopTurn; LPoll (Some (EvMessage (keyless 1)));
                          LSend; LWorker 1%nat])
  ++ [LCloseBegin; LLoopExit; LCloseWaited; LCloseQueue; LCloseQueue].

Module SwaggerSamples.
Import Swagger.

(** Fields are cut at full stops, commas and colons. *)
Definition is_separator (c : ascii) : bool :=
  (Ascii.eqb c "." || Ascii.eqb c "," || Ascii.eqb c ":")%bool.

Fixpoint cut (s : string) (field : string) : list string :=
  match s with
  | EmptyString => if (String.length field =? 0)%nat then [] else [field]
  | String c s =>
      if is_separator c
      then (if (String.length field =? 0)%nat then [] else [field]) ++ cut s ""
      else cut s (field +:+ String c "")
  end.

Definition sample_fields : SummaryFields := fun s => cut s "".

Fixpoint insert_by {A} (less : A -> A -> bool) (x : A) (l : list A) : list A :=
  match l with
  | [] => [x]
  | y :: l => if less y x then y :: insert_by less x l else x :: y :: l
  end.

Definition sample_sort : SliceSort :=
  fun A less l => foldr (insert_by less) [] l.

Definition sample_marshal_string : JsonMarshal string :=
  fun s => Ok ("'" +:+ s +:+ "'").

Definition sample_marshal_item : JsonMarshal swaggerPathItemObject :=
  fun v => Ok ("{" +:+ summary_of (Get v) +:+ "}").

Definition item (summary : string) : swaggerPathItemObject :=
  mkPathItem (Some (mkOperation summary)) None None None None.

(** The pairs of a map of three paths and an entry without path, in some
    order of [range]. *)
Definition sample_pairs : list (string * swaggerPathItemObject) :=
  [("/orders", item "2. list orders"); ("", item "0. nothing");
   ("/health", item "health"); ("/users", item "1. list users")].

Definition sample_paths : gmap string swaggerPathItemObject :=
  list_to_map sample_pairs.

End SwaggerSamples.

(** ** Facts on the primitives *)

Section GoFacts.
Import Go.

Lemma digit_of_char d : 0 <= d < 10 -> digit_of (digit_char d) = Some d.
Proof.
  intros Hd. unfold digit_of, digit_char.
  rewrite nat_ascii_embedding by lia.
  rewrite Nat2Z.inj_add, Z2Nat.id by lia. change (Z.of_nat 48) with 48.
  replace ((48 <=? 48 + d) && (48 + d <=? 57)) with true
    by (symmetry; apply andb_true_iff; split; apply Z.leb_le; lia).
  f_equal; lia.
Qed.

Lemma parse_digit_step a d acc :
  0 <= d < 10 ->
  parse_digits a (String (digit_char d) acc) = parse_digits (10 * a + d) acc.
Proof. intros Hd. cbn [parse_digits]. by rewrite digit_of_char. Qed.

Lemma parse_utoa_aux fuel : forall n,
  0 <= n < 10 ^ Z.of_nat (S fuel) ->
  exists k : nat, forall a acc,
    parse_digits a (utoa_aux fuel n acc) = parse_digits (a * 10 ^ Z.of_nat k + n) acc.
Proof.
  assert (Hone : forall n a acc, 0 <= n < 10 ->
    parse_digits a (String (digit_char (n mod 10)) acc)
    = parse_digits (a * 10 ^ Z.of_nat 1 + n) acc).
  { intros n a acc Hn. rewrite Z.mod_small by lia.
    rewrite parse_digit_step by lia. f_equal.
    change (10 ^ Z.of_nat 1) with 10. lia. }
  induction fuel as [|fuel IH]; intros n Hn.
  - exists 1%nat. intros a acc. cbn [utoa_aux]. apply Hone.
    change (10 ^ Z.of_nat 1) with 10 in Hn. lia.
  - cbn [utoa_aux]. destruct (Z.ltb_spec n 10) as [Hlt|Hge].
    + exists 1%nat. intros a acc. apply Hone. lia.
    + destruct (IH (n / 10)) as [k Hk].
      { split; [apply Z.div_pos; lia|].
        apply Z.div_lt_upper_bound; [lia|].
        rewrite Nat2Z.inj_succ, Z.pow_succ_r in Hn by lia. lia. }
      exists (S k). intros a acc. rewrite Hk.
      rewrite parse_digit_step by (apply Z.mod_pos_bound; lia).
      f_equal. rewrite Nat2Z.inj_succ, Z.pow_succ_r by lia.
      pose proof (Z.div_mod n 10 ltac:(lia)). lia.
Qed.

Lemma utoa_aux_head fuel : forall n acc,
  exists d r, utoa_aux fuel n acc = String (digit_char d) r /\ 0 <= d < 10.
Proof.
  induction fuel as [|fuel IH]; intros n acc; cbn [utoa_aux].
  - eexists _, _. split; [reflexivity|]. apply Z.mod_pos_bound; lia.
  - destruct (n <? 10).
    + eexists _, _. split; [reflexivity|]. apply Z.mod_pos_bound; lia.
    + apply IH.
Qed.

Lemma digit_char_not_sign d :
  0 <= d < 10 ->
  Ascii.eqb (digit_char d) "-" = false /\ Ascii.eqb (digit_char d) "+" = false.
Proof.
  intros Hd.
  assert (d = 0 \/ d = 1 \/ d = 2 \/ d = 3 \/ d = 4 \/ d = 5 \/ d = 6 \/
          d = 7 \/ d = 8 \/ d = 9) as Hc by lia.
  repeat destruct Hc as [->|Hc]; try subst d; split; reflexivity.
Qed.

(** Reading back a printed worker number. *)
Lemma Atoi_itoa n : 0 <= n < 2 ^ 63 -> Atoi (itoa n) = Some n.
Proof.
  intros Hn. unfold itoa.
  replace (n <? 0) with false by (symmetry; apply Z.ltb_ge; lia).
  unfold utoa.
  destruct (utoa_aux_head 19 n "") as (d & r & Heq & Hd).
  destruct (parse_utoa_aux 19 n) as [k Hk].
  { split; [lia|]. change (10 ^ Z.of_nat 20) with 100000000000000000000.
    change (2 ^ 63) with 9223372036854775808 in Hn. lia. }
  specialize (Hk 0 ""). rewrite Heq in Hk |- *.
  unfold Atoi. destruct (digit_char_not_sign d Hd) as [-> ->].
  cbn [orb]. rewrite Hk. cbn [parse_digits].
  replace (0 * 10 ^ Z.of_nat k + n) with n by lia.
  unfold is_int.
  replace ((- 2 ^ 63 <=? n) && (n <? 2 ^ 63)) with true; [reflexivity|].
  symmetry. apply andb_true_iff. split; [apply Z.leb_le|apply Z.ltb_lt]; lia.
Qed.

Lemma int32_small z : - 2 ^ 31 <= z < 2 ^ 31 -> int32 z = z.
Proof. intros Hz. unfold int32. rewrite Z.mod_small; lia. Qed.

End GoFacts.

(** Case analysis on a step that was taken. *)
Ltac step_cases H :=
  unfold step, on_poll, on_event, enter_send, finish_send, worker_turn,
    close_begin, close_signal, close_waited, close_queue, close_transport,
    close_end, crash in H;
  repeat (case_match; simplify_eq; try done).

(** ** Invariants of the transition system *)

Section Invariants.
Import Go.
Context {walk : RingWalk} {transport : Transport}.

Lemma same_frame_refl s : same_frame s s.
Proof. by split. Qed.

Lemma same_frame_trans s1 s2 s3 :
  same_frame s1 s2 -> same_frame s2 s3 -> same_frame s1 s3.
Proof. intros [] []. split; congruence. Qed.

Lemma caps_insert (qs : list Chan) i q q' :
  qs !! i = Some q -> cap q' = cap q -> cap <$> <[i := q']> qs = cap <$> qs.
Proof.
  intros Hq Hc. rewrite list_fmap_insert, Hc.
  apply list_insert_id. by rewrite list_lookup_fmap, Hq.
Qed.

Lemma caps_close (qs : list Chan) n :
  cap <$> ((chan_close <$> take n qs) ++ drop n qs) = cap <$> qs.
Proof.
  rewrite fmap_app, <- list_fmap_compose.
  rewrite <- (take_drop n qs) at 3. by rewrite fmap_app.
Qed.

Lemma chan_at_lookup h mod_ q :
  chan_at h mod_ = Some q -> 0 <= mod_ /\ queuelist h !! Z.to_nat mod_ = Some q.
Proof. unfold chan_at. case_match; [done|]. intros. split; [lia|done]. Qed.

Lemma step_frame l s s' : step l s = Some s' -> same_frame s s'.
Proof.
  intros H. step_cases H; split; simpl; try done; try (by rewrite length_insert).
  all: try (eapply caps_insert; [eapply chan_at_lookup; eassumption|done]).
  all: try (eapply caps_insert; [eassumption|done]).
  all: try apply caps_close.
Qed.

Lemma exec_app ls1 ls2 s :
  exec (ls1 ++ ls2) s = exec ls1 s ≫= exec ls2.
Proof.
  revert s. induction ls1 as [|l ls1 IH]; intros s; simpl; [done|].
  destruct (step l s); simpl; [apply IH|done].
Qed.

(** Induction along a run. *)
Lemma exec_invariant (P : Sys -> Prop) :
  (forall l s s', P s -> step l s = Some s' -> P s') ->
  forall ls s s', P s -> exec ls s = Some s' -> P s'.
Proof.
  intros Hstep. induction ls as [|l ls IH]; intros s s' HP H; simpl in H.
  - by simplify_eq.
  - destruct (step l s) as [s1|] eqn:Hs; [|done]. eauto.
Qed.

Lemma exec_frame ls s s' : exec ls s = Some s' -> same_frame s s'.
Proof.
  apply (exec_invariant (same_frame s)); [|apply same_frame_refl].
  intros l s1 s2 H1 H2. eapply same_frame_trans; [done|by eapply step_frame].
Qed.

Lemma commits_emit a s :
  commits (emit a s) = (commits s + length (filter (fun x => x = Commit) a))%nat.
Proof. unfold commits. simpl. by rewrite filter_app, length_app. Qed.

Lemma commit_policy_zero p msg :
  filter (fun x => x = Commit) (commit_policy p msg 0).1 = [].
Proof. unfold commit_policy. repeat case_match; simplify_eq/=; done. Qed.

Lemma invoked_by_note i j m s :
  invoked_by j (note_invoked i m s)
  = invoked_by j s ++ (if decide (i = j) then [m] else []).
Proof.
  unfold invoked_by. simpl. rewrite filter_app, fmap_app. f_equal.
  rewrite filter_cons, filter_nil. simpl. by repeat case_decide.
Qed.

Lemma waiting_insert i j q s :
  (i < length (queuelist (hd s)))%nat ->
  waiting j (upd_hd (set_queuelist (<[i := q]> (queuelist (hd s)))) s)
  = if decide (i = j) then buf q else waiting j s.
Proof.
  intros Hi. unfold waiting. simpl. case_decide as Hij.
  - subst j. by rewrite list_lookup_insert_eq.
  - by rewrite list_lookup_insert_ne.
Qed.

Lemma sent_to_note p i m s :
  sent_to p i (note_sent m s)
  = sent_to p i s ++ (if decide (route p (hd s) m = Some (Z.of_nat i)) then [m] else []).
Proof.
  unfold sent_to. simpl. rewrite filter_app. by f_equal.
Qed.

Lemma worker_turn_inv p i s s' :
  inv p s -> worker_turn p i s = Some s' -> inv p s'.
Proof.
  intros [Hp Hl Hf Hc] H. unfold worker_turn in H.
  destruct (workers s !! i) as [[]|] eqn:Hw; try done.
  destruct (queuelist (hd s) !! i) as [q|] eqn:Hq; try done.
  assert (Hlen : (i < length (queuelist (hd s)))%nat) by (by eapply lookup_lt_Some).
  destruct (buf q) as [|msg rest] eqn:Hb.
  - destruct (closed q); simplify_eq. by split.
  - assert (Hfifo : forall j,
      invoked_by j (note_invoked i msg
        (upd_hd (set_queuelist (<[i := chan_pop q]> (queuelist (hd s)))) s))
      ++ waiting j (upd_hd (set_queuelist (<[i := chan_pop q]> (queuelist (hd s)))) s)
      = sent_to p j s).
    { intros j. rewrite invoked_by_note, waiting_insert by done.
      rewrite <- Hf. case_decide as Hij.
      - subst j. unfold waiting. rewrite Hq. simpl. rewrite Hb. simpl.
        by rewrite <- app_assoc.
      - by rewrite app_nil_r. }
    destruct (Dealhanle p msg); simplify_eq; by split.
Qed.

Lemma route_sis p h h' m : sis h = sis h' -> route p h m = route p h' m.
Proof. intros E. unfold route. by rewrite E. Qed.

(** A step that touches neither the queues nor the two histories. *)
Lemma inv_quiet p s s' :
  inv p s ->
  heap s' = heap s -> param (hd s') = param (hd s) -> sis (hd s') = sis (hd s) ->
  queuelist (hd s') = queuelist (hd s) ->
  sent s' = sent s -> invoked s' = invoked s ->
  match loop s' with
  | Sending index msg mod_ => index = 0 /\ route p (hd s) msg = Some mod_
  | Looping index | Awaiting index => index = 0
  | _ => True
  end ->
  commits s' =
    match loop s' with
    | Finished => if AutoCommitMode p =? 1 then 0%nat else 1%nat
    | _ => 0%nat
    end ->
  inv p s'.
Proof.
  intros [Hp Hl Hf Hc] Eh Ep Es Eq Esent Einv Hl' Hc'. split.
  - by rewrite Eh, Ep.
  - destruct (loop s'); try done.
    destruct Hl' as [? Hr]. split; [done|]. by rewrite (route_sis p (hd s') (hd s) msg Es).
  - intros i. transitivity (sent_to p i s).
    + rewrite <- Hf. unfold invoked_by, waiting. by rewrite Einv, Eq.
    + unfold sent_to. rewrite Esent.
      apply list_filter_iff. intros m. by rewrite (route_sis p (hd s') (hd s) m Es).
  - done.
Qed.

Lemma commits_quiet s s' extra :
  calls s' = calls s ++ extra -> Forall (fun a => a <> Commit) extra ->
  commits s' = commits s.
Proof.
  intros E Hx. unfold commits. rewrite E, filter_app, length_app.
  replace (filter (fun a => a = Commit) extra) with (@nil Action); [simpl; lia|].
  symmetry. clear E. induction Hx as [|a l Ha Hl IH]; [done|].
  rewrite filter_cons_False by done. exact IH.
Qed.

Ltac quiet_commits Hc :=
  first
    [ exact Hc
    | etrans;
      [ eapply commits_quiet;
        [ simpl; rewrite <- ?app_assoc; reflexivity | repeat constructor; done ]
      | exact Hc ] ].

Lemma enter_send_inv p e s :
  inv p s -> loop s = Looping 0 -> inv p (enter_send p 0 e s).
Proof.
  intros Hinv El. pose proof Hinv as [Hp Hl Hf Hc]. rewrite El in Hc.
  unfold enter_send, crash.
  destruct (route p (hd s) e) as [mod_|] eqn:Hr.
  - destruct (chan_at (hd s) mod_); by apply (inv_quiet p s).
  - by apply (inv_quiet p s).
Qed.

Lemma finish_send_inv p msg mod_ s s' :
  inv p s -> loop s = Sending 0 msg mod_ ->
  finish_send p 0 msg mod_ s = Some s' -> inv p s'.
Proof.
  intros Hinv El H. pose proof Hinv as [Hp Hl Hf Hc]. rewrite El in Hc, Hl.
  destruct Hl as [_ Hr]. unfold finish_send in H.
  destruct (chan_at (hd s) mod_) as [q|] eqn:Hq; [|done].
  apply chan_at_lookup in Hq as [Hpos Hq].
  destruct (closed q).
  { simplify_eq. by apply (inv_quiet p s). }
  case_decide as Hroom; [|done].
  destruct (commit_policy p msg 0) as [acts index'] eqn:Hcp. simplify_eq.
  assert (Hlen : (Z.to_nat mod_ < length (queuelist (hd s)))%nat)
    by (by eapply lookup_lt_Some).
  split; simpl.
  - done.
  - done.
  - intros j.
    change (invoked_by j s ++
            waiting j (upd_hd (set_queuelist
              (<[Z.to_nat mod_ := chan_push msg q]> (queuelist (hd s)))) s)
            = sent_to p j (note_sent msg s)).
    rewrite waiting_insert, sent_to_note, <- Hf by done.
    case_decide as Hj; case_decide as Hrj.
    + subst j. unfold waiting. rewrite Hq. simpl. by rewrite app_assoc.
    + exfalso. apply Hrj. rewrite Hr. f_equal. lia.
    + exfalso. apply Hj. rewrite Hr in Hrj. injection Hrj as Hrj. lia.
    + by rewrite app_nil_r.
  - change (commits (emit acts s) = 0%nat).
    rewrite commits_emit, Hc.
    pose proof (commit_policy_zero p msg) as Hz. rewrite Hcp in Hz.
    simpl in Hz. by rewrite Hz.
Qed.

Lemma step_worker p i s :
  heap s !! param (hd s) = Some p -> step (LWorker i) s = worker_turn p i s.
Proof. intros Hp. unfold step. rewrite Hp. by destruct (loop s). Qed.

Lemma step_inv p l s s' : inv p s -> step l s = Some s' -> inv p s'.
Proof.
  intros Hinv H. pose proof Hinv as [Hp Hl Hf Hc].
  destruct l.
  - (* Start() *)
    unfold step in H. rewrite Hp in H.
    destruct (loop s) eqn:El; simplify_eq. by apply (inv_quiet p s).
  - (* SubscribeTopics *)
    unfold step in H. rewrite Hp in H.
    destruct (loop s) eqn:El; simplify_eq.
    destruct ok; simplify_eq;
      apply (inv_quiet p s); try done; simpl; rewrite ?El; try done;
      quiet_commits Hc.
  - (* the loop test, flag unset *)
    unfold step in H. rewrite Hp in H.
    destruct (loop s) eqn:El; simplify_eq.
    destruct (isclose (hd s)); simplify_eq.
    by apply (inv_quiet p s).
  - (* Poll *)
    unfold step in H. rewrite Hp in H.
    destruct (loop s) eqn:El; simplify_eq.
    destruct (ConsumerMode p =? 0); simplify_eq.
    assert (Hpolled : inv p (emit [Poll 100] (set_loop (Looping 0) s))).
    { apply (inv_quiet p s); try done; simpl. quiet_commits Hc. }
    unfold on_poll. destruct ev as [[]|]; try done.
    + by apply enter_send_inv.
    + destruct (code =? ErrAllBrokersDown);
        apply (inv_quiet p s); try done; simpl; quiet_commits Hc.
    + apply (inv_quiet p s); try done; simpl; quiet_commits Hc.
    + apply (inv_quiet p s); try done; simpl; quiet_commits Hc.
    + apply (inv_quiet p s); try done; simpl; quiet_commits Hc.
    + apply (inv_quiet p s); try done; simpl; quiet_commits Hc.
  - (* the exit channel *)
    unfold step in H. rewrite Hp in H.
    destruct (loop s) eqn:El; simplify_eq.
    destruct (ConsumerMode p =? 0); simplify_eq.
    destruct (exit (hd s)) as [[|x rest]|]; simplify_eq.
    by apply (inv_quiet p s).
  - (* the events channel *)
    unfold step in H. rewrite Hp in H.
    destruct (loop s) eqn:El; simplify_eq.
    destruct (ConsumerMode p =? 0); simplify_eq.
    assert (Hback : inv p (set_loop (Looping 0) s))
      by (by apply (inv_quiet p s)).
    unfold on_event. destruct ev.
    + by apply enter_send_inv.
    + by apply (inv_quiet p s).
    + apply (inv_quiet p s); try done; simpl; quiet_commits Hc.
    + apply (inv_quiet p s); try done; simpl; quiet_commits Hc.
    + by apply (inv_quiet p s).
    + by apply (inv_quiet p s).
  - (* the enqueue *)
    unfold step in H. rewrite Hp in H.
    destruct (loop s) eqn:El; simplify_eq.
    destruct Hl as [-> _]. by eapply finish_send_inv.
  - (* leaving the loop *)
    unfold step in H. rewrite Hp in H.
    destruct (loop s) eqn:El; simplify_eq.
    destruct (isclose (hd s)); [|done].
    destruct (AutoCommitMode p =? 1) eqn:Em; simpl in H; simplify_eq;
      apply (inv_quiet p s); try done; simpl; rewrite ?Em; try done.
    unfold commits in *. simpl. rewrite filter_app, length_app, Hc. done.
  - (* a worker *)
    rewrite (step_worker p) in H by done. by eapply worker_turn_inv.
  - (* Close(), the flag *)
    unfold step in H. rewrite Hp in H.
    assert (Hb : close_begin p s = s').
    { destruct (loop s), (closing s); by simplify_eq. }
    unfold close_begin in Hb.
    destruct (ConsumerMode p =? 1); simplify_eq;
      apply (inv_quiet p s); try done; simpl; destruct (loop s); done.
  - (* Close(), the exit signal *)
    unfold step in H. rewrite Hp in H.
    assert (Hb : close_signal s = Some s').
    { destruct (loop s), (closing s); done. }
    unfold close_signal in Hb.
    destruct (exit (hd s)) as [[|]|]; simplify_eq.
    apply (inv_quiet p s); try done; simpl; destruct (loop s); done.
  - (* Close(), the wait *)
    unfold step in H. rewrite Hp in H.
    assert (Hb : close_waited s = Some s').
    { destruct (loop s), (closing s); done. }
    unfold close_waited in Hb. destruct (wg (hd s) =? 0); simplify_eq.
    apply (inv_quiet p s); try done; simpl; destruct (loop s); done.
  - (* Close(), a queue *)
    unfold step in H. rewrite Hp in H.
    assert (Hb : exists i, close_queue p i s = Some s').
    { destruct (loop s), (closing s); try done; by eexists. }
    destruct Hb as [i Hb]. unfold close_queue in Hb.
    destruct (i <? ThreadNum p); [|done].
    destruct (chan_at (hd s) i) as [q|] eqn:Hq; [|done].
    apply chan_at_lookup in Hq as [Hpos Hq].
    destruct (closed q); simplify_eq.
    assert (Hlen : (Z.to_nat i < length (queuelist (hd s)))%nat)
      by (by eapply lookup_lt_Some).
    split.
    + done.
    + simpl. by destruct (loop s).
    + intros j. etrans; [|exact (Hf j)].
      change (invoked_by j s ++
              waiting j (upd_hd (set_queuelist
                (<[Z.to_nat i := chan_close q]> (queuelist (hd s)))) s)
              = invoked_by j s ++ waiting j s).
      rewrite waiting_insert by done. case_decide as Hj; [|done].
      subst j. unfold waiting. by rewrite Hq.
    + done.
  - (* Close(), the transport *)
    unfold step in H. rewrite Hp in H.
    assert (Hb : exists i, close_transport p i s = Some s').
    { destruct (loop s), (closing s); try done; by eexists. }
    destruct Hb as [i Hb]. unfold close_transport in Hb.
    destruct (i <? ThreadNum p); simplify_eq.
    apply (inv_quiet p s); try done; simpl.
    etrans; [|exact Hc]. eapply commits_quiet; [simpl; reflexivity|].
    repeat constructor; done.
  - (* Close(), the return *)
    unfold step in H. rewrite Hp in H.
    assert (Hb : close_end s = s').
    { destruct (loop s), (closing s); by simplify_eq. }
    subst s'. apply (inv_quiet p s); try done; simpl; destruct (loop s); done.
  - (* CommitMessage() *)
    unfold step in H. rewrite Hp in H.
    assert (Hb : emit [CommitMessage m] s = s').
    { destruct (loop s); by simplify_eq. }
    subst s'. apply (inv_quiet p s); try done; simpl.
    etrans; [|exact Hc]. eapply commits_quiet; [simpl; reflexivity|].
    repeat constructor; done.
Qed.

Lemma exec_inv p ls s s' : inv p s -> exec ls s = Some s' -> inv p s'.
Proof. apply exec_invariant. intros l s1 s2. apply step_inv. Qed.

End Invariants.

(** ** The ring and the routing *)

Section Routing.
Import Go.
Context {walk : RingWalk} {transport : Transport}.

Lemma foldl_Add_members (l : list nat) c :
  members (foldl (fun c i => Add (itoa (Z.of_nat i)) c) c l)
  = members c ++ ((fun i => itoa (Z.of_nat i)) <$> l).
Proof.
  revert c. induction l as [|i l IH]; intros c; simpl.
  - by rewrite app_nil_r.
  - rewrite IH. simpl. by rewrite <- app_assoc.
Qed.

Lemma new_ring_members n : members (new_ring n) = worker_ids n.
Proof. unfold new_ring. by rewrite foldl_Add_members. Qed.

Lemma worker_ids_lookup n i :
  (i < n)%nat -> worker_ids n !! i = Some (itoa (Z.of_nat i)).
Proof.
  intros Hi. unfold worker_ids. by rewrite list_lookup_fmap, lookup_seq_lt.
Qed.

Lemma Get_member c name elt : Get c name = Ok elt -> elt ∈ members c.
Proof.
  unfold Get. destruct (members c !! _) eqn:E; intros; simplify_eq.
  by eapply list_elem_of_lookup_2.
Qed.

(** On the ring of [n] workers [Get] answers the number of one of them. *)
Lemma Get_new_ring c n name :
  members c = worker_ids n -> (0 < n)%nat ->
  exists i, (i < n)%nat /\ Get c name = Ok (itoa (Z.of_nat i)).
Proof.
  intros Hm Hn. unfold Get. rewrite Hm.
  assert (Hlen : length (worker_ids n) = n)
    by (unfold worker_ids; by rewrite length_fmap, length_seq).
  rewrite Hlen.
  exists (locate (worker_ids n) name `mod` n)%nat.
  assert (locate (worker_ids n) name `mod` n < n)%nat
    by (apply Nat.mod_upper_bound; lia).
  split; [done|]. by rewrite worker_ids_lookup.
Qed.

Lemma route_keyed p h msg n :
  members (sis h) = worker_ids n -> (0 < n)%nat -> Z.of_nat n <= 2 ^ 31 ->
  Key msg <> "" ->
  exists i, (i < n)%nat /\ Get (sis h) (Key msg) = Ok (itoa (Z.of_nat i))
            /\ route p h msg = Some (Z.of_nat i).
Proof.
  intros Hm Hn Hmax Hk.
  destruct (Get_new_ring (sis h) n (Key msg) Hm Hn) as (i & Hi & HG).
  exists i. split; [done|]. split; [done|].
  unfold route. apply String.eqb_neq in Hk. rewrite Hk. simpl.
  rewrite HG, Atoi_itoa by lia. by rewrite int32_small by lia.
Qed.

(** The code asks nothing of the answer of the ring but that [Atoi] reads
    it: there is no test of its range in [SendToChannel]. *)
Lemma route_trusts_the_ring p h msg modstr v :
  Key msg <> "" -> Get (sis h) (Key msg) = Ok modstr -> Atoi modstr = Some v ->
  route p h msg = Some (int32 v).
Proof.
  intros Hk HG Ha. unfold route. apply String.eqb_neq in Hk.
  by rewrite Hk, HG, Ha.
Qed.

Lemma route_keyless p h msg :
  Key msg = "" -> 0 <= Partition msg -> 0 < ThreadNum p < 2 ^ 31 ->
  route p h msg = Some (Partition msg mod ThreadNum p).
Proof.
  intros Hk Hp Hn. unfold route. rewrite Hk. simpl.
  rewrite int32_small by lia. unfold rem.
  replace (ThreadNum p =? 0) with false by (symmetry; apply Z.eqb_neq; lia).
  by rewrite Z.rem_mod_nonneg by lia.
Qed.

(** The code and the wording of the specification agree on the ring that
    [NewConsumer] builds, whatever the message. *)
Lemma route_spec p h msg n :
  members (sis h) = worker_ids n -> ThreadNum p = Z.of_nat n ->
  0 < ThreadNum p < 2 ^ 31 -> 0 <= Partition msg ->
  route p h msg = Some (spec_destination (ThreadNum p) (sis h) msg)
  /\ 0 <= spec_destination (ThreadNum p) (sis h) msg < ThreadNum p.
Proof.
  intros Hm Hn Hr Hp. unfold spec_destination.
  destruct (String.eqb (Key msg) "") eqn:Hk; simpl.
  - apply String.eqb_eq in Hk. rewrite route_keyless by done.
    split; [done|]. apply Z.mod_pos_bound; lia.
  - apply String.eqb_neq in Hk.
    destruct (route_keyed p h msg n) as (i & Hi & HG & HR); try done; try lia.
    rewrite HR, HG, Atoi_itoa by lia.
    replace ((0 <=? Z.of_nat i) && (Z.of_nat i <? ThreadNum p)) with true.
    + split; [done|lia].
    + symmetry. apply andb_true_iff. split; [apply Z.leb_le|apply Z.ltb_lt]; lia.
Qed.

(** ** The state that [NewConsumer] returns *)

Lemma NewConsumer_inv now pid mem a Id p s :
  mem !! a = Some p ->
  NewConsumer now pid mem a Id = Some (Ok s) ->
  kafka_NewConsumer (new_config p now pid Id) = None /\
  s = {| heap := if ThreadNum p <=? 0 then <[a := set_ThreadNum 51 p]> mem else mem;
         hd := {| isclose := false; param := a;
                  config := new_config p now pid Id; wg := 1;
                  exit := if ConsumerMode p =? 1 then Some [] else None;
                  queuelist := replicate (Z.to_nat (ThreadNum (effective p))) (make_chan 2);
                  sis := new_ring (Z.to_nat (ThreadNum (effective p))) |};
         loop := NotStarted;
         workers := replicate (Z.to_nat (ThreadNum (effective p))) Receiving;
         closing := CloseNotCalled;
         calls := []; logged := []; sent := []; invoked := [] |}.
Proof.
  intros Hp H. unfold NewConsumer in H. rewrite Hp in H.
  destruct (kafka_NewConsumer _) eqn:Hk; [done|]. split; [done|].
  unfold effective. destruct (ThreadNum p <=? 0) eqn:Ht.
  - rewrite lookup_insert_eq in H. by simplify_eq.
  - rewrite Hp in H. by simplify_eq.
Qed.

Lemma NewConsumer_param now pid mem a Id p s :
  mem !! a = Some p ->
  NewConsumer now pid mem a Id = Some (Ok s) ->
  heap s !! param (hd s) = Some (effective p).
Proof.
  intros Hp H. destruct (NewConsumer_inv _ _ _ _ _ _ _ Hp H) as [_ ->]. simpl.
  unfold effective. destruct (ThreadNum p <=? 0); [|done].
  by rewrite lookup_insert_eq.
Qed.

Lemma NewConsumer_initial now pid mem a Id p s :
  mem !! a = Some p ->
  NewConsumer now pid mem a Id = Some (Ok s) ->
  inv (effective p) s.
Proof.
  intros Hp H. pose proof (NewConsumer_param _ _ _ _ _ _ _ Hp H) as Hpar.
  destruct (NewConsumer_inv _ _ _ _ _ _ _ Hp H) as [_ ->].
  split; try done.
  intros i. unfold invoked_by, waiting, sent_to. simpl.
  destruct (replicate _ _ !! i) as [q|] eqn:E; [|done].
  apply lookup_replicate in E as [-> _]. done.
Qed.

Lemma effective_ThreadNum p :
  ThreadNum (effective p) = if ThreadNum p <=? 0 then 51 else ThreadNum p.
Proof. unfold effective. by destruct (ThreadNum p <=? 0). Qed.

Lemma effective_positive p : 0 < ThreadNum (effective p).
Proof. rewrite effective_ThreadNum. destruct (Z.leb_spec (ThreadNum p) 0); lia. Qed.

End Routing.

(** ** The flag, the wait group and the queues along a run *)

Section LifecycleFacts.
Import Go.
Context {walk : RingWalk} {transport : Transport}.

Lemma filter_snoc_other {A} (P : A -> Prop) `{forall x, Decision (P x)} l x :
  ~ P x -> filter P (l ++ [x]) = filter P l.
Proof.
  intros Hx. rewrite filter_app, filter_cons_False, filter_nil by done.
  by rewrite app_nil_r.
Qed.

Lemma commit_policy_calls p msg index a :
  a ∈ (commit_policy p msg index).1 -> a = Commit \/ a = CommitMessage msg.
Proof.
  unfold commit_policy.
  destruct (AutoCommitMode p =? 0), (index >? 1000), (AutoCommitMode p =? 1);
    simpl; rewrite ?elem_of_cons, ?elem_of_nil; tauto.
Qed.

Lemma commit_policy_keeps_open p msg index :
  filter (fun a => a = CloseConsumer) (commit_policy p msg index).1 = [].
Proof. unfold commit_policy. repeat case_match; simplify_eq/=; done. Qed.

Lemma chan_at_Some h mod_ q :
  chan_at h mod_ = Some q -> queuelist h !! Z.to_nat mod_ = Some q.
Proof. unfold chan_at. by case_match. Qed.

Lemma closed_insert (qs : list Chan) k q q' :
  qs !! k = Some q -> closed q' = closed q ->
  closed <$> <[k := q']> qs = closed <$> qs.
Proof.
  intros Hq Hc. rewrite list_fmap_insert, Hc.
  apply list_insert_id. by rewrite list_lookup_fmap, Hq.
Qed.

Lemma closed_upto_insert n (qs : list Chan) k q q' :
  qs !! k = Some q -> closed q' = closed q ->
  closed_upto n qs -> closed_upto n (<[k := q']> qs).
Proof.
  intros Hq Hc H. unfold closed_upto.
  by rewrite (closed_insert _ _ _ _ Hq Hc), length_insert.
Qed.

Lemma closed_upto_lookup n (qs : list Chan) j q :
  closed_upto n qs -> (n <= length qs)%nat -> qs !! j = Some q ->
  closed q = bool_decide (j < n)%nat.
Proof.
  intros H Hn Hq.
  assert (Hj : (j < length qs)%nat) by (by eapply lookup_lt_Some).
  assert (E : (closed <$> qs) !! j = Some (closed q))
    by (by rewrite list_lookup_fmap, Hq).
  unfold closed_upto in H. rewrite H in E. case_bool_decide as Hjn.
  - rewrite lookup_app_l in E by (rewrite length_replicate; lia).
    apply lookup_replicate in E as [E _]. done.
  - rewrite lookup_app_r in E by (rewrite length_replicate; lia).
    apply lookup_replicate in E as [E _]. done.
Qed.

Lemma closed_upto_close n (qs : list Chan) q :
  closed_upto n qs -> qs !! n = Some q ->
  closed_upto (S n) (<[n := chan_close q]> qs).
Proof.
  intros H Hq.
  assert (Hn : (n < length qs)%nat) by (by eapply lookup_lt_Some).
  unfold closed_upto in *. rewrite list_fmap_insert, H, length_insert. simpl.
  rewrite insert_app_r_alt by (rewrite length_replicate; lia).
  rewrite length_replicate, Nat.sub_diag.
  replace (length qs - n)%nat with (S (length qs - S n)) by lia. simpl.
  by rewrite cons_middle, app_assoc, <- replicate_S_end.
Qed.

Lemma closed_upto_none (qs : list Chan) :
  closed_upto 0 qs <-> Forall (fun q => closed q = false) qs.
Proof.
  unfold closed_upto. simpl. rewrite Nat.sub_0_r. split.
  - intros H. apply Forall_lookup. intros j q Hq.
    assert (E : (closed <$> qs) !! j = Some (closed q))
      by (by rewrite list_lookup_fmap, Hq).
    rewrite H in E. by apply lookup_replicate in E as [E _].
  - intros H. induction H as [|q qs Hq _ IH]; [done|].
    rewrite fmap_cons. simpl. by f_equal.
Qed.

Lemma closed_upto_all (qs : list Chan) :
  closed_upto (length qs) qs <-> Forall (fun q => closed q = true) qs.
Proof.
  unfold closed_upto. rewrite Nat.sub_diag, app_nil_r. split.
  - intros H. apply Forall_lookup. intros j q Hq.
    assert (E : (closed <$> qs) !! j = Some (closed q))
      by (by rewrite list_lookup_fmap, Hq).
    rewrite H in E. by apply lookup_replicate in E as [E _].
  - intros H. induction H as [|q qs Hq _ IH]; [done|].
    rewrite fmap_cons. simpl. by f_equal.
Qed.

(** A step that leaves the handle and [Close] where they are. *)
Lemma lifecycle_quiet p s s' :
  lifecycle p s ->
  heap s' = heap s -> hd s' = hd s -> closing s' = closing s ->
  (loop s' = Finished <-> loop s = Finished) ->
  filter (fun a => a = CloseConsumer) (calls s')
  = filter (fun a => a = CloseConsumer) (calls s) ->
  lifecycle p s'.
Proof.
  intros [Hp Hq Hroom Hwg Hflag Hfin Hexit Hafter Hbound Hclosed Htr]
    Eh Ed Ec El Ecalls.
  unfold queues_closed in *.
  split; unfold queues_closed; rewrite ?Eh, ?Ed, ?Ec, ?Ecalls; try done.
  - rewrite Hwg. destruct (loop s'), (loop s); try done;
      first [ discriminate (proj1 El eq_refl) | discriminate (proj2 El eq_refl) ].
  - intros Hf. apply Hfin. by apply El.
  - intros Hc. apply El. by apply Hafter.
Qed.

(** A step that puts a message into a queue or takes one out. *)
Lemma lifecycle_queue p s s' k q q' :
  lifecycle p s ->
  queuelist (hd s) !! k = Some q ->
  closed q' = closed q -> cap q' = cap q -> (length (buf q') <= cap q')%nat ->
  heap s' = heap s ->
  hd s' = set_queuelist (<[k := q']> (queuelist (hd s))) (hd s) ->
  closing s' = closing s ->
  (loop s' = Finished <-> loop s = Finished) ->
  filter (fun a => a = CloseConsumer) (calls s')
  = filter (fun a => a = CloseConsumer) (calls s) ->
  lifecycle p s'.
Proof.
  intros [Hp Hq Hroom Hwg Hflag Hfin Hexit Hafter Hbound Hclosed Htr]
    Hk Hcl Hcap Hlen Eh Ed Ec El Ecalls.
  unfold queues_closed in *.
  split; unfold queues_closed; rewrite ?Eh, ?Ed, ?Ec, ?Ecalls; simpl;
    rewrite ?length_insert; try done.
  - apply Forall_insert; [done|]. split; [done|].
    rewrite Hcap. by destruct (Forall_lookup_1 _ _ _ _ Hroom Hk).
  - rewrite Hwg. destruct (loop s'), (loop s); try done;
      first [ discriminate (proj1 El eq_refl) | discriminate (proj2 El eq_refl) ].
  - intros Hf. apply Hfin. by apply El.
  - intros Hc. apply El. by apply Hafter.
  - by eapply closed_upto_insert.
Qed.

Lemma step_lifecycle p l s s' :
  lifecycle p s -> step l s = Some s' -> lifecycle p s'.
Proof.
  intros Hinv H. pose proof Hinv as
    [Hp Hq Hroom Hwg Hflag Hfin Hexit Hafter Hbound Hclosed Htr].
  unfold step in H. rewrite Hp in H.
  destruct l.
  - (* Start() *)
    destruct (loop s) eqn:El; simplify_eq.
    apply (lifecycle_quiet p s); try done. simpl. by rewrite El.
  - (* SubscribeTopics *)
    destruct (loop s) eqn:El; simplify_eq.
    destruct ok; simplify_eq; apply (lifecycle_quiet p s); try done; simpl;
      rewrite ?El, ?filter_app; try done; by rewrite !app_nil_r.
  - (* the loop test, flag unset *)
    destruct (loop s) eqn:El; simplify_eq.
    destruct (isclose (hd s)); simplify_eq.
    apply (lifecycle_quiet p s); try done. simpl. by rewrite El.
  - (* Poll *)
    destruct (loop s) eqn:El; simplify_eq.
    destruct (ConsumerMode p =? 0); simplify_eq.
    apply (lifecycle_quiet p s); try done;
      unfold on_poll, enter_send, crash; repeat case_match; simpl;
      rewrite ?El, ?filter_app, ?app_nil_r; done.
  - (* the exit channel *)
    destruct (loop s) eqn:El; simplify_eq.
    destruct (ConsumerMode p =? 0) eqn:Em; simplify_eq.
    destruct (exit (hd s)) as [[|x rest]|] eqn:Ee; simplify_eq.
    destruct Hexit as [Hexit|(Hexit & Hm & Hc1 & Hc2)].
    { by destruct (ConsumerMode p =? 1). }
    simplify_eq.
    split; simpl; rewrite ?El in *; try done.
    + left. by rewrite Hm.
    + intros Hc. discriminate (Hafter Hc).
  - (* the events channel *)
    destruct (loop s) eqn:El; simplify_eq.
    destruct (ConsumerMode p =? 0); simplify_eq.
    apply (lifecycle_quiet p s); try done;
      unfold on_event, enter_send, crash; repeat case_match; simpl;
      rewrite ?El, ?filter_app, ?app_nil_r; done.
  - (* the enqueue *)
    destruct (loop s) eqn:El; simplify_eq.
    unfold finish_send in H.
    destruct (chan_at (hd s) mod_) as [q|] eqn:Hat; [|done].
    apply chan_at_Some in Hat.
    destruct (closed q) eqn:Hcq.
    { simplify_eq. apply (lifecycle_quiet p s); try done. simpl. by rewrite El. }
    case_decide as Hroom'; [|done].
    destruct (commit_policy p msg index) as [acts index'] eqn:Hcp. simplify_eq.
    apply (lifecycle_queue p s _ (Z.to_nat mod_) q (chan_push msg q));
      try done; simpl.
    + rewrite length_app. simpl. lia.
    + by rewrite El.
    + rewrite filter_app.
      pose proof (commit_policy_keeps_open p msg index) as Hk.
      rewrite Hcp in Hk. simpl in Hk. by rewrite Hk, app_nil_r.
  - (* leaving the loop *)
    destruct (loop s) eqn:El; simplify_eq.
    destruct (isclose (hd s)) eqn:Hc; [|done].
    destruct (AutoCommitMode p =? 1); simpl in H; simplify_eq;
      (split; simpl; rewrite ?filter_snoc_other by done; try done;
       try (rewrite Hwg; lia)).
    all: by rewrite Hc.
  - (* a worker *)
    assert (Hw : worker_turn p i s = Some s') by (by destruct (loop s)).
    clear H. unfold worker_turn in Hw.
    destruct (workers s !! i) as [[]|]; try done.
    destruct (queuelist (hd s) !! i) as [q|] eqn:Hqi; [|done].
    destruct (buf q) as [|msg rest] eqn:Hb.
    + destruct (closed q); simplify_eq. by apply (lifecycle_quiet p s).
    + assert (Hs : lifecycle p
               (note_invoked i msg
                  (upd_hd (set_queuelist (<[i := chan_pop q]> (queuelist (hd s)))) s))).
      { apply (lifecycle_queue p s _ i q (chan_pop q)); try done. simpl.
        destruct (Forall_lookup_1 _ _ _ _ Hroom Hqi) as [Hlen _].
        rewrite Hb in *. simpl in *. lia. }
      destruct (Dealhanle p msg); simplify_eq; [done|].
      by apply (lifecycle_quiet p _ _ Hs).
  - (* Close(), the flag *)
    assert (Hb : closing s = CloseNotCalled /\ close_begin p s = s').
    { destruct (loop s), (closing s); by simplify_eq. }
    destruct Hb as [Ec Hb]. clear H. unfold close_begin in Hb.
    rewrite Ec in *.
    destruct (ConsumerMode p =? 1) eqn:Em; simplify_eq;
      split; simpl; rewrite ?Ec, ?Em; try done.
    all: try (by destruct Hexit as [?|(? & ? & ? & ?)]; [left|done]).
    all: unfold queues_closed in *; simpl; by rewrite ?Ec in *.
  - (* Close(), the exit signal *)
    assert (Hb : closing s = CloseSignalling /\ close_signal s = Some s').
    { destruct (loop s), (closing s); by simplify_eq. }
    destruct Hb as [Ec Hb]. clear H. unfold close_signal in Hb.
    destruct (exit (hd s)) as [[|]|] eqn:Ee; simplify_eq.
    rewrite Ec in *.
    split; simpl; try done.
    + right. destruct Hexit as [Hexit|(? & ? & ? & ?)]; [|done].
      destruct (ConsumerMode p =? 1) eqn:Em; [|done].
      apply Z.eqb_eq in Em. done.
    + unfold queues_closed in *; simpl; by rewrite ?Ec in *.
  - (* Close(), the wait *)
    assert (Hb : closing s = CloseWaiting /\ close_waited s = Some s').
    { destruct (loop s), (closing s); by simplify_eq. }
    destruct Hb as [Ec Hb]. clear H. unfold close_waited in Hb.
    destruct (wg (hd s) =? 0) eqn:Ewg; simplify_eq.
    apply Z.eqb_eq in Ewg. rewrite Ec in *.
    assert (Hl : loop s = Finished).
    { destruct (loop s); try done; rewrite Hwg in Ewg; done. }
    split; simpl; try done.
    + destruct Hexit as [?|(? & ? & ? & ?)]; [by left|by right].
    + intros i' Hi'. simplify_eq. lia.
    + unfold queues_closed in *; simpl; by rewrite ?Ec in *.
  - (* Close(), a queue *)
    assert (Hb : exists i, closing s = CloseQueues i /\ close_queue p i s = Some s').
    { destruct (loop s), (closing s); try done; by eexists. }
    destruct Hb as (i & Ec & Hb). clear H. unfold close_queue in Hb.
    destruct (i <? ThreadNum p) eqn:Ei; [|done]. apply Z.ltb_lt in Ei.
    destruct (chan_at (hd s) i) as [q|] eqn:Hat; [|done].
    apply chan_at_Some in Hat.
    destruct (closed q) eqn:Hcq; simplify_eq.
    destruct (Hbound i Ec) as [Hi0 Hi1].
    assert (Hlt : (Z.to_nat i < length (queuelist (hd s)))%nat)
      by (by eapply lookup_lt_Some).
    unfold queues_closed in *. rewrite Ec in *.
    split; simpl; rewrite ?length_insert; try done.
    + apply Forall_insert; [done|]. simpl.
      exact (Forall_lookup_1 _ _ _ _ Hroom Hat).
    + destruct Hexit as [?|(? & ? & ? & ?)]; [by left|by right].
    + intros i' Hi'. simplify_eq. lia.
    + unfold queues_closed. simpl.
      replace (Z.to_nat (i + 1)) with (S (Z.to_nat i)) by lia.
      by apply closed_upto_close.
  - (* Close(), the transport *)
    assert (Hb : exists i, closing s = CloseQueues i /\ close_transport p i s = Some s').
    { destruct (loop s), (closing s); try done; by eexists. }
    destruct Hb as (i & Ec & Hb). clear H. unfold close_transport in Hb.
    destruct (i <? ThreadNum p) eqn:Ei; simplify_eq. apply Z.ltb_ge in Ei.
    destruct (Hbound i Ec) as [Hi0 Hi1].
    unfold queues_closed in *. rewrite Ec in *.
    split; simpl; try done.
    + destruct Hexit as [?|(? & ? & ? & ?)]; [by left|by right].
    + unfold queues_closed. simpl.
      replace (length (queuelist (hd s))) with (Z.to_nat i) at 1 by lia. done.
    + by rewrite filter_app, Htr.
  - (* Close(), the return *)
    assert (Hb : closing s = CloseLogging /\ close_end s = s').
    { destruct (loop s), (closing s); by simplify_eq. }
    destruct Hb as [Ec Hb]. clear H. subst s'.
    unfold queues_closed in *. rewrite Ec in *.
    split; simpl; try done.
    destruct Hexit as [?|(? & ? & ? & ?)]; [by left|by right].
  - (* CommitMessage() *)
    assert (Hb : emit [CommitMessage m] s = s').
    { destruct (loop s); by simplify_eq. }
    subst s'. apply (lifecycle_quiet p s); try done. simpl.
    by rewrite filter_snoc_other.
Qed.

Lemma exec_lifecycle p ls s s' :
  lifecycle p s -> exec ls s = Some s' -> lifecycle p s'.
Proof. apply exec_invariant. intros l s1 s2. apply step_lifecycle. Qed.

Lemma NewConsumer_lifecycle now pid mem a Id p s :
  mem !! a = Some p ->
  NewConsumer now pid mem a Id = Some (Ok s) ->
  lifecycle (effective p) s.
Proof.
  intros Hp H. pose proof (NewConsumer_param _ _ _ _ _ _ _ Hp H) as Hpar.
  destruct (NewConsumer_inv _ _ _ _ _ _ _ Hp H) as [_ ->].
  split; simpl; try done.
  - apply length_replicate.
  - apply Forall_replicate. simpl. split; [lia|done].
  - left. unfold effective. by destruct (ThreadNum p <=? 0).
  - apply closed_upto_none. by apply Forall_replicate.
Qed.

Lemma reached_lifecycle now pid mem a Id p s0 ls s :
  mem !! a = Some p ->
  NewConsumer now pid mem a Id = Some (Ok s0) ->
  exec ls s0 = Some s ->
  lifecycle (effective p) s.
Proof.
  intros Hp H Hrun. eapply exec_lifecycle; [|done].
  by eapply NewConsumer_lifecycle.
Qed.

(** While the loop goroutine has not finished, [Close()] has not got past
    [wg.Wait()] and every queue is open. *)
Lemma lifecycle_open p s :
  lifecycle p s -> loop s <> Finished ->
  Forall (fun q => closed q = false) (queuelist (hd s))
  /\ close_pending (closing s) = true.
Proof.
  intros Hlife Hl.
  assert (Hc : close_pending (closing s) = true).
  { destruct (close_pending (closing s)) eqn:E; [done|].
    by destruct Hl; apply (life_after _ _ Hlife). }
  split; [|done]. apply closed_upto_none.
  pose proof (life_closed _ _ Hlife) as H. unfold queues_closed in H.
  by destruct (closing s).
Qed.

End LifecycleFacts.

(** ** Construction *)

Section Construction.
Import Go.
Context {walk : RingWalk} {transport : Transport}.

(** C7. When the configured [ThreadNum] is unset or not positive, the worker
    count that [NewConsumer] works with is 51: the ring gets the members "0"
    to "50", and 51 queues and 51 workers are created.  When it is positive,
    exactly that many ring members, queues and workers are created.  Every
    queue is empty, open, and of capacity 2. *)
Theorem C7_effective_worker_count now pid mem a Id p s :
  mem !! a = Some p ->
  NewConsumer now pid mem a Id = Some (Ok s) ->
  let n := if ThreadNum p <=? 0 then 51 else ThreadNum p in
  ThreadNum <$> heap s !! param (hd s) = Some n /\
  members (sis (hd s)) = worker_ids (Z.to_nat n) /\
  length (queuelist (hd s)) = Z.to_nat n /\
  Forall (fun q => cap q = 2%nat /\ buf q = [] /\ closed q = false)
         (queuelist (hd s)) /\
  workers s = replicate (Z.to_nat n) Receiving /\
  (ThreadNum p <= 0 ->
   Z.to_nat n = 51%nat /\
   members (sis (hd s)) =
     ["0"; "1"; "2"; "3"; "4"; "5"; "6"; "7"; "8"; "9";
      "10"; "11"; "12"; "13"; "14"; "15"; "16"; "17"; "18"; "19";
      "20"; "21"; "22"; "23"; "24"; "25"; "26"; "27"; "28"; "29";
      "30"; "31"; "32"; "33"; "34"; "35"; "36"; "37"; "38"; "39";
      "40"; "41"; "42"; "43"; "44"; "45"; "46"; "47"; "48"; "49"; "50"]).
Proof.
  intros Hp H n.
  pose proof (NewConsumer_param _ _ _ _ _ _ _ Hp H) as Hpar.
  destruct (NewConsumer_inv _ _ _ _ _ _ _ Hp H) as [_ Hs].
  assert (Hn : ThreadNum (effective p) = n) by apply effective_ThreadNum.
  rewrite Hn in Hs. rewrite Hpar. subst s. simpl.
  split; [by rewrite Hn|].
  split; [apply new_ring_members|].
  split; [apply length_replicate|].
  split; [by apply Forall_replicate|].
  split; [done|].
  intros Hle. subst n.
  replace (ThreadNum p <=? 0) with true by (symmetry; apply Z.leb_le; lia).
  split; [done|]. by rewrite new_ring_members.
Qed.

(** C8, as the code has it.  [NewConsumer] keeps the caller's pointer and
    writes the default worker count through it: of the caller's object only
    [ThreadNum] changes, to 51, and only when it was not positive.  Nothing
    else in the heap changes, and no later step of the loop, of a worker or
    of [Close] writes to it. *)
Theorem C8_only_ThreadNum_is_defaulted now pid mem a Id p s0 ls s :
  mem !! a = Some p ->
  NewConsumer now pid mem a Id = Some (Ok s0) ->
  exec ls s0 = Some s ->
  heap s = (if ThreadNum p <=? 0 then <[a := set_ThreadNum 51 p]> mem else mem)
  /\ exists p', heap s !! a = Some p'
     /\ Address p' = Address p /\ GroupId p' = GroupId p /\ Topic p' = Topic p
     /\ Dealhanle p' = Dealhanle p /\ ConsumerMode p' = ConsumerMode p
     /\ AutoCommitMode p' = AutoCommitMode p
     /\ ThreadNum p' = (if ThreadNum p <=? 0 then 51 else ThreadNum p).
Proof.
  intros Hp H Hrun.
  apply exec_frame in Hrun as [Hheap _ _ _ _ _].
  destruct (NewConsumer_inv _ _ _ _ _ _ _ Hp H) as [_ Hs].
  rewrite Hheap, Hs. simpl. split; [done|].
  destruct (ThreadNum p <=? 0).
  - exists (set_ThreadNum 51 p). by rewrite lookup_insert_eq.
  - by exists p.
Qed.

(** C10. Whatever [AutoCommitMode] says, the configuration map from which
    [NewConsumer] creates the transport has enable.auto.commit and
    enable.auto.offset.store set to true. *)
Theorem C10_auto_commit_always_on now pid mem a Id p s :
  mem !! a = Some p ->
  NewConsumer now pid mem a Id = Some (Ok s) ->
  config (hd s) = new_config p now pid Id /\
  kafka_NewConsumer (config (hd s)) = None /\
  config (hd s) !! "enable.auto.commit" = Some (CBool true) /\
  config (hd s) !! "enable.auto.offset.store" = Some (CBool true).
Proof.
  intros Hp H. destruct (NewConsumer_inv _ _ _ _ _ _ _ Hp H) as [Hk ->].
  simpl. split; [done|]. split; [done|]. split; reflexivity.
Qed.

End Construction.

(** ** Dispatch *)

Section Dispatch.
Import Go.
Context {walk : RingWalk} {transport : Transport}.

Lemma filter_agree {A} (P Q : A -> Prop) `{forall x, Decision (P x)}
    `{forall x, Decision (Q x)} (l : list A) :
  Forall (fun x => P x <-> Q x) l -> filter P l = filter Q l.
Proof.
  induction 1 as [|x l Hx _ IH]; [done|].
  rewrite !filter_cons. rewrite IH. by repeat case_decide; try tauto.
Qed.

(** A message that arrives is taken into [SendToChannel], bound for the
    queue that [route] names; nothing else changes. *)
Lemma message_taken p s l msg d q s1 :
  heap s !! param (hd s) = Some p ->
  route p (hd s) msg = Some d ->
  chan_at (hd s) d = Some q ->
  carried l = Some msg ->
  step l s = Some s1 ->
  exists index, loop s = Awaiting index /\ loop s1 = Sending index msg d
    /\ heap s1 = heap s /\ hd s1 = hd s /\ sent s1 = sent s
    /\ invoked s1 = invoked s /\ workers s1 = workers s.
Proof.
  intros Hp Hr Hq Hl H. unfold step in H. rewrite Hp in H.
  destruct l as [| | |[[]|]| |[]| | | | | | | | | |]; try discriminate Hl;
    injection Hl as ->;
    (destruct (loop s) as [| | |index| | |] eqn:El; try discriminate H);
    (destruct (ConsumerMode p =? 0); try discriminate H);
    injection H as <-; exists index; (split; [done|]);
    unfold on_poll, on_event, enter_send; simpl; rewrite Hr, Hq; done.
Qed.

(** The send of line 141: the message goes to the end of its queue, and of
    no other; with room in the queue the send goes through. *)
Lemma message_enqueued p s index msg d q :
  heap s !! param (hd s) = Some p ->
  loop s = Sending index msg d ->
  chan_at (hd s) d = Some q ->
  closed q = false ->
  (forall s', step LSend s = Some s' ->
     waiting (Z.to_nat d) s' = buf q ++ [msg]
     /\ (forall j, j <> Z.to_nat d -> waiting j s' = waiting j s)
     /\ sent s' = sent s ++ [msg]
     /\ invoked s' = invoked s
     /\ loop s' = Looping index)
  /\ ((length (buf q) < cap q)%nat -> is_Some (step LSend s)).
Proof.
  intros Hp Hl Hq Hc. unfold step. rewrite Hp, Hl. unfold finish_send.
  rewrite Hq, Hc. apply chan_at_lookup in Hq as [Hd Hq].
  assert (Hlen : (Z.to_nat d < length (queuelist (hd s)))%nat)
    by (by eapply lookup_lt_Some).
  destruct (commit_policy p msg index) as [acts index'].
  split.
  - intros s' H. case_decide; [|done]. simplify_eq.
    split. { unfold waiting. simpl. by rewrite list_lookup_insert_eq. }
    split; [|done].
    intros j Hj. unfold waiting. simpl. by rewrite list_lookup_insert_ne.
  - intros Hroom. case_decide; [|done]. by eexists.
Qed.

(** C6. A message without key goes to the queue whose index is the
    partition modulo the worker count; with four workers the partitions
    0,1,2,3,0,1,2,3 go to the workers 0,1,2,3,0,1,2,3.  The message is put
    at the end of that queue, and of no other, as soon as the queue has
    room; and in every run of a consumer that [NewConsumer] built, what a
    worker has handled followed by what waits in its queue is, as long as
    the messages have no key, the enqueued messages whose partition modulo
    the worker count is the number of that worker, in the order of their
    arrival. *)
Theorem C6_keyless_goes_to_partition_mod p h :
  0 < ThreadNum p < 2 ^ 31 ->
  (forall msg, Key msg = "" -> 0 <= Partition msg ->
     route p h msg = Some (Partition msg mod ThreadNum p))
  /\ (ThreadNum p = 4 ->
      route p h <$> (keyless <$> [0; 1; 2; 3; 0; 1; 2; 3])
      = Some <$> [0; 1; 2; 3; 0; 1; 2; 3])
  /\ (forall s l msg q s1,
        hd s = h -> heap s !! param h = Some p ->
        Key msg = "" -> 0 <= Partition msg ->
        chan_at h (Partition msg mod ThreadNum p) = Some q ->
        closed q = false ->
        carried l = Some msg -> step l s = Some s1 ->
        let d := Z.to_nat (Partition msg mod ThreadNum p) in
        (exists index, loop s1 = Sending index msg (Partition msg mod ThreadNum p))
        /\ (forall j, waiting j s1 = waiting j s)
        /\ (forall s2, step LSend s1 = Some s2 ->
              waiting d s2 = buf q ++ [msg]
              /\ (forall j, j <> d -> waiting j s2 = waiting j s)
              /\ sent s2 = sent s ++ [msg])
        /\ ((length (buf q) < cap q)%nat -> is_Some (step LSend s1)))
  /\ (forall now pid mem a Id p0 s0 ls s,
        mem !! a = Some p0 -> effective p0 = p ->
        NewConsumer now pid mem a Id = Some (Ok s0) ->
        exec ls s0 = Some s ->
        Forall (fun m => Key m = "" /\ 0 <= Partition m) (sent s) ->
        forall i, invoked_by i s ++ waiting i s
                  = filter (fun m => Partition m mod ThreadNum p = Z.of_nat i)
                           (sent s)).
Proof.
  intros Hn. split; [|split; [|split]].
  - intros msg Hk Hp. by apply route_keyless.
  - intros H4. simpl.
    rewrite !route_keyless by (simpl; done || lia). simpl. rewrite H4.
    reflexivity.
  - intros s l msg q s1 <- Hp Hk Hpart Hq Hc Hl Hstep d.
    assert (Hr : route p (hd s) msg = Some (Partition msg mod ThreadNum p))
      by (by apply route_keyless).
    destruct (message_taken _ _ _ _ _ _ _ Hp Hr Hq Hl Hstep)
      as (index & _ & El & Eh & Ed & Es & _ & _).
    split; [by exists index|].
    split. { intros j. unfold waiting. by rewrite Ed. }
    rewrite <- Eh, <- Ed in Hp. rewrite <- Ed in Hq.
    destruct (message_enqueued _ _ _ _ _ _ Hp El Hq Hc) as [Hsend Hroom].
    split; [|done].
    intros s2 H2. destruct (Hsend s2 H2) as (Hw & Ho & Hs & _).
    split; [done|]. split; [|by rewrite Hs, Es].
    intros j Hj. rewrite (Ho j Hj). unfold waiting. by rewrite Ed.
  - intros now pid mem a Id p0 s0 ls s Hp0 <- H Hrun Hsent i.
    pose proof (NewConsumer_initial _ _ _ _ _ _ _ Hp0 H) as Hinv.
    apply (exec_inv _ _ _ _ Hinv) in Hrun as [_ _ Hf _].
    rewrite Hf. unfold sent_to. apply filter_agree.
    eapply Forall_impl; [exact Hsent|]. intros m [Hk Hpart]. simpl.
    rewrite route_keyless by done. split; [by intros [= ->]|by intros ->].
Qed.

(** The ring and the queues of every state reached from [NewConsumer]. *)
Lemma reached_shape now pid mem a Id p s0 ls s :
  mem !! a = Some p ->
  NewConsumer now pid mem a Id = Some (Ok s0) ->
  exec ls s0 = Some s ->
  heap s !! param (hd s) = Some (effective p)
  /\ members (sis (hd s)) = worker_ids (Z.to_nat (ThreadNum (effective p)))
  /\ length (queuelist (hd s)) = Z.to_nat (ThreadNum (effective p)).
Proof.
  intros Hp H Hrun.
  pose proof (NewConsumer_param _ _ _ _ _ _ _ Hp H) as Hpar.
  apply exec_frame in Hrun as [Hheap Hparam _ Hsis Hcaps _].
  destruct (NewConsumer_inv _ _ _ _ _ _ _ Hp H) as [_ Hs].
  rewrite Hheap, Hparam, Hsis. split; [done|].
  apply (f_equal length) in Hcaps. rewrite !length_fmap in Hcaps.
  rewrite Hcaps, Hs. simpl. split; [apply new_ring_members|apply length_replicate].
Qed.


(** C2. Two messages with the same key, not empty, are routed to the same
    worker, which depends on nothing but the key, the ring and the worker
    count; and at every moment each worker has passed to the handler, in the
    order of their dispatch, a first part of the messages routed to it, the
    others waiting in its queue in that order. *)
Theorem C2_same_key_same_worker_in_order now pid mem a Id p s0 ls s :
  mem !! a = Some p ->
  ThreadNum p < 2 ^ 31 ->
  NewConsumer now pid mem a Id = Some (Ok s0) ->
  exec ls s0 = Some s ->
  (forall m1 m2, Key m1 = Key m2 -> Key m1 <> "" ->
     exists i, (i < Z.to_nat (ThreadNum (effective p)))%nat
       /\ route (effective p) (hd s) m1 = Some (Z.of_nat i)
       /\ route (effective p) (hd s) m2 = Some (Z.of_nat i))
  /\ (forall i, invoked_by i s ++ waiting i s = sent_to (effective p) i s).
Proof.
  intros Hp Hmax H Hrun.
  destruct (reached_shape _ _ _ _ _ _ _ _ _ Hp H Hrun) as (Hpar & Hm & Hlen).
  pose proof (effective_positive p) as Hpos.
  assert (Hn : ThreadNum (effective p) < 2 ^ 31).
  { rewrite effective_ThreadNum. destruct (ThreadNum p <=? 0); lia. }
  split.
  - intros m1 m2 Hk Hne.
    destruct (route_keyed (effective p) (hd s) m1 _ Hm) as (i & Hi & HG & HR);
      try done; try lia.
    exists i. split; [done|]. split; [done|].
    unfold route. rewrite <- Hk. apply String.eqb_neq in Hne. rewrite Hne. simpl.
    rewrite HG, Atoi_itoa by lia. by rewrite int32_small by lia.
  - eapply inv_fifo, exec_inv; [|done]. by eapply NewConsumer_initial.
Qed.

(** C1, as the code has it.  In batched-manual mode no run issues a bulk
    commit while messages are dispatched, however many they are: the counter
    that [SendToChannel] increments is its own copy, and the loop calls it
    with 0 every time.  The only bulk commit is the one issued when the loop
    is left. *)
Theorem C1_bulk_commit_only_on_exit now pid mem a Id p s0 ls s :
  mem !! a = Some p ->
  AutoCommitMode p = 0 ->
  NewConsumer now pid mem a Id = Some (Ok s0) ->
  exec ls s0 = Some s ->
  commits s = match loop s with Finished => 1%nat | _ => 0%nat end.
Proof.
  intros Hp Hmode H Hrun.
  pose proof (NewConsumer_initial _ _ _ _ _ _ _ Hp H) as Hinv.
  apply (exec_inv _ _ _ _ Hinv) in Hrun as [_ _ _ Hc].
  rewrite Hc. replace (AutoCommitMode (effective p)) with 0; [done|].
  unfold effective. by destruct (ThreadNum p <=? 0).
Qed.

End Dispatch.

(** ** Workers *)

Section Workers.
Import Go.
Context {walk : RingWalk} {transport : Transport}.

Lemma step_keeps_workers l s s' :
  step l s = Some s' -> (forall i, l <> LWorker i) ->
  workers s' = workers s /\ invoked s' = invoked s.
Proof.
  intros H Hl. destruct l; try (by destruct (Hl i)); step_cases H.
Qed.

Lemma invoked_by_other i j m s s' :
  invoked s' = invoked s ++ [(j, m)] -> j <> i -> invoked_by i s' = invoked_by i s.
Proof.
  intros E Hj. unfold invoked_by. rewrite E, filter_app.
  rewrite filter_cons_False, filter_nil by (simpl; done). by rewrite app_nil_r.
Qed.

(** A worker that has returned stays so and passes nothing to the handler
    any more. *)
Lemma worker_gone_forever i ls s s' :
  workers s !! i = Some Gone -> exec ls s = Some s' ->
  workers s' !! i = Some Gone /\ invoked_by i s' = invoked_by i s.
Proof.
  intros Hg. apply (exec_invariant
    (fun s1 => workers s1 !! i = Some Gone /\ invoked_by i s1 = invoked_by i s));
    [|done].
  clear s'. intros l s1 s2 [Hw Hi] Hstep.
  assert (Hcase : (exists j, l = LWorker j) \/ (forall j, l <> LWorker j))
    by (destruct l; eauto; right; done).
  destruct Hcase as [[j ->]|Hl].
  - unfold step in Hstep. destruct (heap s1 !! param (hd s1)) as [p|]; [|done].
    assert (Hturn : worker_turn p j s1 = Some s2) by (by destruct (loop s1)).
    clear Hstep. unfold worker_turn in Hturn.
    destruct (workers s1 !! j) as [[]|] eqn:Hwj; try done.
    assert (j <> i) by congruence.
    destruct (queuelist (hd s1) !! j) as [q|]; [|done].
    destruct (buf q) as [|msg rest].
    + destruct (closed q); simplify_eq. simpl.
      by rewrite list_lookup_insert_ne.
    + destruct (Dealhanle p msg); simplify_eq; simpl.
      * split; [done|]. rewrite <- Hi. by eapply invoked_by_other.
      * rewrite list_lookup_insert_ne by done. split; [done|].
        rewrite <- Hi. by eapply invoked_by_other.
  - destruct (step_keeps_workers _ _ _ Hstep Hl) as [Ew Ei].
    unfold invoked_by in *. by rewrite Ew, Ei.
Qed.

(** C4, as the code has it.  A panic of the handler is caught by the
    deferred function of the worker goroutine and logged, and the message is
    gone from the queue; but the guard stands around the whole loop, so the
    goroutine returns: this worker never takes another message, whatever
    happens afterwards, and what is left in its queue stays there. *)
Theorem C4_worker_stops_after_panic p i s q msg rest r :
  heap s !! param (hd s) = Some p ->
  workers s !! i = Some Receiving ->
  queuelist (hd s) !! i = Some q ->
  buf q = msg :: rest ->
  Dealhanle p msg = Panicked r ->
  exists s', step (LWorker i) s = Some s'
    /\ logged s' = logged s ++ [LogDealChanException r i]
    /\ invoked_by i s' = invoked_by i s ++ [msg]
    /\ waiting i s' = rest
    /\ workers s' !! i = Some Gone
    /\ step (LWorker i) s' = None
    /\ forall ls s'', exec ls s' = Some s'' ->
         workers s'' !! i = Some Gone /\ invoked_by i s'' = invoked_by i s'.
Proof.
  intros Hp Hw Hq Hb Hd.
  assert (Hlen : (i < length (queuelist (hd s)))%nat) by (by eapply lookup_lt_Some).
  assert (Hlw : (i < length (workers s))%nat) by (by eapply lookup_lt_Some).
  rewrite (step_worker p) by done. unfold worker_turn.
  rewrite Hw, Hq, Hb, Hd. eexists. split; [done|].
  split; [done|].
  split. { unfold invoked_by. simpl. rewrite filter_app, fmap_app. f_equal.
           rewrite filter_cons_True by done. done. }
  split. { unfold waiting. simpl. rewrite list_lookup_insert_eq by done.
           simpl. by rewrite Hb. }
  assert (Hgone : <[i:=Gone]> (workers s) !! i = Some Gone)
    by (by rewrite list_lookup_insert_eq).
  split; [done|].
  split. { rewrite (step_worker p) by done. unfold worker_turn. simpl.
           by rewrite Hgone. }
  intros ls s'' Hrun. by eapply worker_gone_forever.
Qed.

(** C9, as the code has it.  A worker passes each message it takes from its
    queue to the handler once: the message leaves the queue and is put back
    nowhere.  What the handler returns, nil or an error, is dropped: nothing
    is logged, no call is made on the transport, and the worker goes on. *)
Theorem C9_handler_once_result_dropped p i s q msg rest err :
  heap s !! param (hd s) = Some p ->
  workers s !! i = Some Receiving ->
  queuelist (hd s) !! i = Some q ->
  buf q = msg :: rest ->
  Dealhanle p msg = Returned err ->
  exists s', step (LWorker i) s = Some s'
    /\ invoked s' = invoked s ++ [(i, msg)]
    /\ waiting i s' = rest
    /\ (forall j, j <> i -> waiting j s' = waiting j s)
    /\ sent s' = sent s
    /\ logged s' = logged s
    /\ calls s' = calls s
    /\ workers s' = workers s.
Proof.
  intros Hp Hw Hq Hb Hd.
  assert (Hlen : (i < length (queuelist (hd s)))%nat) by (by eapply lookup_lt_Some).
  rewrite (step_worker p) by done. unfold worker_turn.
  rewrite Hw, Hq, Hb, Hd. eexists. split; [done|].
  split; [done|].
  split. { unfold waiting. simpl. rewrite list_lookup_insert_eq by done.
           simpl. by rewrite Hb. }
  split. { intros j Hj. unfold waiting. simpl.
           by rewrite list_lookup_insert_ne. }
  done.
Qed.

End Workers.

(** ** Closing *)

Section Closing.
Import Go.
Context {walk : RingWalk} {transport : Transport}.

(** While the subscription fails the goroutine stays in its first loop,
    which does not read the close flag. *)
Lemma subscription_keeps_failing n s :
  is_Some (heap s !! param (hd s)) -> loop s = Subscribing ->
  exists s', exec (replicate n (LSubscribe false)) s = Some s'
    /\ loop s' = Subscribing /\ hd s' = hd s /\ closing s' = closing s.
Proof.
  revert s. induction n as [|n IH]; intros s [p Hp] Hl; simpl.
  - by exists s.
  - unfold step. rewrite Hp, Hl.
    destruct (IH (emit [Sleep 1] (say [LogSubscribeError]
                (emit [SubscribeTopics (Topic p)] s)))) as (s' & Hrun & H1 & H2 & H3);
      [by exists p|done|].
    exists s'. by rewrite Hrun.
Qed.

Lemma not_subscribed_step l s s' :
  l <> LSubscribe true -> step l s = Some s' ->
  wg (hd s) = 1 -> (loop s = NotStarted \/ loop s = Subscribing) ->
  close_pending (closing s) = true ->
  wg (hd s') = 1 /\ (loop s' = NotStarted \/ loop s' = Subscribing)
  /\ close_pending (closing s') = true.
Proof.
  intros Hl H Hwg Hloop Hcl.
  destruct Hloop as [Hloop|Hloop]; destruct l; try destruct ok;
    step_cases H; simpl; try rewrite Hloop; auto; try congruence.
  all: exfalso; simpl in *; try congruence.
  all: rewrite Hwg in *; done.
Qed.

(** Once the main loop is reached with the flag set, the goroutine leaves
    it at its next turn and [Close] can return. *)
Lemma loop_leaves_when_closed p index s :
  heap s !! param (hd s) = Some p -> loop s = Looping index ->
  isclose (hd s) = true ->
  (forall l s', step l s = Some s' ->
     l = LLoopExit \/ (exists i, l = LWorker i) \/ l = LCloseBegin
     \/ l = LCloseSignal \/ l = LCloseWaited \/ l = LCloseQueue
     \/ l = LCloseTransport \/ l = LCloseEnd
     \/ (exists m, l = LCommitMessage m))
  /\ exists s', step LLoopExit s = Some s' /\ loop s' = Finished
       /\ wg (hd s') = wg (hd s) - 1.
Proof.
  intros Hp Hl Hc. split.
  - intros l s' H. unfold step in H. rewrite Hp, Hl in H.
    destruct l; simpl in H; rewrite ?Hc in H; try done; eauto 12.
  - unfold step. rewrite Hp, Hl, Hc. eexists. split; [done|].
    by destruct (AutoCommitMode p =? 1).
Qed.

(** C5, as the code has it.  The loop that retries the subscription never
    reads the close flag.  From a consumer just built, [Start] and [Close]
    can be called and the subscription can go on failing for ever with the
    flag set; and in no run without a successful subscription does the
    goroutine finish or [Close] return. *)
Theorem C5_close_hangs_while_subscription_fails now pid mem a Id p s0 :
  mem !! a = Some p ->
  NewConsumer now pid mem a Id = Some (Ok s0) ->
  (forall n, exists s,
     exec (LStart :: LCloseBegin :: replicate n (LSubscribe false)) s0 = Some s
     /\ isclose (hd s) = true /\ loop s = Subscribing
     /\ closing s <> CloseNotCalled)
  /\ (forall ls s, exec ls s0 = Some s -> LSubscribe true ∉ ls ->
        loop s <> Finished /\ closing s <> CloseReturned).
Proof.
  intros Hp H.
  pose proof (NewConsumer_param _ _ _ _ _ _ _ Hp H) as Hpar.
  destruct (NewConsumer_inv _ _ _ _ _ _ _ Hp H) as [_ Hs].
  split.
  - intros n.
    assert (Hb : exists s1, exec [LStart; LCloseBegin] s0 = Some s1
               /\ is_Some (heap s1 !! param (hd s1)) /\ isclose (hd s1) = true
               /\ loop s1 = Subscribing /\ closing s1 <> CloseNotCalled).
    { subst s0. simpl in Hpar. simpl. unfold step. simpl. rewrite Hpar. simpl.
      rewrite Hpar. unfold close_begin. simpl.
      destruct (ConsumerMode (effective p) =? 1); eexists; (split; [done|]);
        simpl; rewrite Hpar; eauto. }
    destruct Hb as (s1 & Hrun & Hh & Hc & Hl & Hcl).
    destruct (subscription_keeps_failing n s1 Hh Hl) as (s & Hrun' & Hl' & Hhd & Hcl').
    exists s. split.
    + change (LStart :: LCloseBegin :: replicate n (LSubscribe false))
        with ([LStart; LCloseBegin] ++ replicate n (LSubscribe false)).
      by rewrite exec_app, Hrun.
    + rewrite Hhd, Hcl'. done.
  - assert (Hgen : forall ls s1 s,
      exec ls s1 = Some s -> LSubscribe true ∉ ls ->
      wg (hd s1) = 1 -> (loop s1 = NotStarted \/ loop s1 = Subscribing) ->
      close_pending (closing s1) = true ->
      loop s <> Finished /\ closing s <> CloseReturned).
    { induction ls as [|l ls IH]; intros s1 s Hrun Hnot Hwg Hl Hcl; simpl in Hrun.
      - simplify_eq. split; [|by destruct (closing s)].
        destruct Hl as [-> | ->]; done.
      - destruct (step l s1) as [s2|] eqn:Hstep; [|done].
        apply not_elem_of_cons in Hnot as [Hne Hnot].
        destruct (not_subscribed_step l s1 s2) as (? & ? & ?); try done.
        eapply IH; eauto. }
    intros ls s Hrun Hnot. eapply Hgen; eauto; rewrite Hs; simpl; auto.
Qed.

End Closing.

(** ** The theorems at sample inputs *)

Ltac evaluate := vm_compute; first [reflexivity | discriminate | done].

Lemma C7_witness :
  (sample_heap p_unset !! 1%nat = Some p_unset
   /\ NewConsumer (transport := sample_transport) 1700000000 4242
        (sample_heap p_unset) 1%nat 7 = Some (Ok (built p_unset))
   /\ ThreadNum <$> heap (built p_unset) !! param (hd (built p_unset)) = Some 51
   /\ length (members (sis (hd (built p_unset)))) = 51%nat
   /\ length (queuelist (hd (built p_unset))) = 51%nat
   /\ length (workers (built p_unset)) = 51%nat)
  /\ (sample_heap p_four !! 1%nat = Some p_four
      /\ NewConsumer (transport := sample_transport) 1700000000 4242
           (sample_heap p_four) 1%nat 7 = Some (Ok (built p_four))
      /\ members (sis (hd (built p_four))) = ["0"; "1"; "2"; "3"]
      /\ length (queuelist (hd (built p_four))) = 4%nat
      /\ workers (built p_four) = [Receiving; Receiving; Receiving; Receiving]).
Proof.
  split.
  - assert (H1 : sample_heap p_unset !! 1%nat = Some p_unset) by evaluate.
    assert (H2 : NewConsumer (transport := sample_transport) 1700000000 4242
                   (sample_heap p_unset) 1%nat 7 = Some (Ok (built p_unset)))
      by evaluate.
    split; [exact H1|]. split; [exact H2|].
    destruct (C7_effective_worker_count 1700000000 4242 (sample_heap p_unset)
                1%nat 7 p_unset (built p_unset) H1 H2)
      as (Hn & Hm & Hq & _ & Hw & _).
    split; [exact Hn|]. split; [rewrite Hm; reflexivity|].
    split; [exact Hq|]. rewrite Hw. reflexivity.
  - assert (H1 : sample_heap p_four !! 1%nat = Some p_four) by evaluate.
    assert (H2 : NewConsumer (transport := sample_transport) 1700000000 4242
                   (sample_heap p_four) 1%nat 7 = Some (Ok (built p_four)))
      by evaluate.
    split; [exact H1|]. split; [exact H2|].
    destruct (C7_effective_worker_count 1700000000 4242 (sample_heap p_four)
                1%nat 7 p_four (built p_four) H1 H2)
      as (_ & Hm & Hq & _ & Hw & _).
    split; [rewrite Hm; reflexivity|]. split; [exact Hq|exact Hw].
Defined.

(** The claim of C8 fails: the object the caller passed in, at address 1,
    has [ThreadNum] 0 before [NewConsumer] and 51 after it. *)
Lemma C8_counterexample :
  NewConsumer (transport := sample_transport) 1700000000 4242
    (sample_heap p_unset) 1%nat 7 = Some (Ok (built p_unset))
  /\ ThreadNum <$> sample_heap p_unset !! 1%nat = Some 0
  /\ ThreadNum <$> heap (built p_unset) !! 1%nat = Some 51
  /\ heap (built p_unset) !! 1%nat <> sample_heap p_unset !! 1%nat.
Proof.
  split; [evaluate|]. split; [evaluate|]. split; [evaluate|].
  intros E. apply (f_equal (fmap ThreadNum)) in E. vm_compute in E.
  discriminate E.
Qed.

Lemma C8_witness :
  sample_heap p_unset !! 1%nat = Some p_unset
  /\ NewConsumer (transport := sample_transport) 1700000000 4242
       (sample_heap p_unset) 1%nat 7 = Some (Ok (built p_unset))
  /\ exec (walk := sample_walk) (sample_schedule 51 3) (built p_unset)
     = Some (ran p_unset (sample_schedule 51 3))
  /\ closing (ran p_unset (sample_schedule 51 3)) = CloseReturned
  /\ heap (ran p_unset (sample_schedule 51 3))
     = (if ThreadNum p_unset <=? 0
        then <[1%nat := set_ThreadNum 51 p_unset]> (sample_heap p_unset)
        else sample_heap p_unset).
Proof.
  assert (H1 : sample_heap p_unset !! 1%nat = Some p_unset) by evaluate.
  assert (H2 : NewConsumer (transport := sample_transport) 1700000000 4242
                 (sample_heap p_unset) 1%nat 7 = Some (Ok (built p_unset)))
    by evaluate.
  assert (H3 : exec (walk := sample_walk) (sample_schedule 51 3) (built p_unset)
               = Some (ran p_unset (sample_schedule 51 3))) by evaluate.
  split; [exact H1|]. split; [exact H2|]. split; [exact H3|].
  split; [evaluate|].
  exact (proj1 (C8_only_ThreadNum_is_defaulted 1700000000 4242
                  (sample_heap p_unset) 1%nat 7 p_unset (built p_unset)
                  (sample_schedule 51 3) (ran p_unset (sample_schedule 51 3))
                  H1 H2 H3)).
Defined.

Lemma C10_witness :
  (sample_heap p_four !! 1%nat = Some p_four
   /\ NewConsumer (transport := sample_transport) 1700000000 4242
        (sample_heap p_four) 1%nat 7 = Some (Ok (built p_four))
   /\ AutoCommitMode p_four = 0
   /\ config (hd (built p_four)) !! "enable.auto.commit" = Some (CBool true))
  /\ (sample_heap p_sync !! 1%nat = Some p_sync
      /\ NewConsumer (transport := sample_transport) 1700000000 4242
           (sample_heap p_sync) 1%nat 7 = Some (Ok (built p_sync))
      /\ AutoCommitMode p_sync = 1
      /\ config (hd (built p_sync)) !! "enable.auto.commit" = Some (CBool true)).
Proof.
  split.
  - assert (H1 : sample_heap p_four !! 1%nat = Some p_four) by evaluate.
    assert (H2 : NewConsumer (transport := sample_transport) 1700000000 4242
                   (sample_heap p_four) 1%nat 7 = Some (Ok (built p_four)))
      by evaluate.
    split; [exact H1|]. split; [exact H2|]. split; [reflexivity|].
    destruct (C10_auto_commit_always_on 1700000000 4242 (sample_heap p_four)
                1%nat 7 p_four (built p_four) H1 H2) as (_ & _ & Hc & _).
    exact Hc.
  - assert (H1 : sample_heap p_sync !! 1%nat = Some p_sync) by evaluate.
    assert (H2 : NewConsumer (transport := sample_transport) 1700000000 4242
                   (sample_heap p_sync) 1%nat 7 = Some (Ok (built p_sync)))
      by evaluate.
    split; [exact H1|]. split; [exact H2|]. split; [reflexivity|].
    destruct (C10_auto_commit_always_on 1700000000 4242 (sample_heap p_sync)
                1%nat 7 p_sync (built p_sync) H1 H2) as (_ & _ & Hc & _).
    exact Hc.
Defined.

Lemma C6_witness :
  0 < ThreadNum p_four < 2 ^ 31
  /\ route (walk := sample_walk) p_four (hd (built p_four)) (keyless 6)
     = Some (6 mod 4)
  /\ route (walk := sample_walk) p_four (hd (built p_four))
       <$> (keyless <$> [0; 1; 2; 3; 0; 1; 2; 3])
     = Some <$> [0; 1; 2; 3; 0; 1; 2; 3]
  /\ (step (walk := sample_walk) (LPoll (Some (EvMessage (keyless 6))))
        (ran p_four sample_started)
      = Some (ran p_four (sample_started ++ [LPoll (Some (EvMessage (keyless 6)))]))
      /\ step (walk := sample_walk) LSend
           (ran p_four (sample_started ++ [LPoll (Some (EvMessage (keyless 6)))]))
         = Some (ran p_four (sample_started
                             ++ [LPoll (Some (EvMessage (keyless 6))); LSend]))
      /\ waiting 2 (ran p_four (sample_started
                                ++ [LPoll (Some (EvMessage (keyless 6))); LSend]))
         = [keyless 6]
      /\ sent (ran p_four (sample_started
                            ++ [LPoll (Some (EvMessage (keyless 6))); LSend]))
         = [keyless 6])
  /\ (exec (walk := sample_walk) sample_eight (built p_four)
      = Some (ran p_four sample_eight)
      /\ sent (ran p_four sample_eight) = keyless <$> [0; 1; 2; 3; 0; 1; 2; 3]
      /\ invoked (ran p_four sample_eight) = []
      /\ (forall i, invoked_by i (ran p_four sample_eight)
                    ++ waiting i (ran p_four sample_eight)
                    = filter (fun m => Partition m mod ThreadNum p_four = Z.of_nat i)
                             (sent (ran p_four sample_eight)))
      /\ waiting 0 (ran p_four sample_eight) = [keyless 0; keyless 0]
      /\ waiting 1 (ran p_four sample_eight) = [keyless 1; keyless 1]
      /\ waiting 2 (ran p_four sample_eight) = [keyless 2; keyless 2]
      /\ waiting 3 (ran p_four sample_eight) = [keyless 3; keyless 3]).
Proof.
  assert (Hn : 0 < ThreadNum p_four < 2 ^ 31) by (split; evaluate).
  split; [exact Hn|].
  destruct (C6_keyless_goes_to_partition_mod (walk := sample_walk)
              (transport := sample_transport)
              p_four (hd (built p_four)) Hn) as (Hall & Hscen & Hstep & Hruns).
  split; [apply (Hall (keyless 6)); evaluate|].
  split; [apply Hscen; reflexivity|].
  split.
  - assert (H1 : hd (ran p_four sample_started) = hd (built p_four)) by evaluate.
    assert (H2 : heap (ran p_four sample_started) !! param (hd (built p_four))
                 = Some p_four) by evaluate.
    assert (H3 : chan_at (hd (built p_four)) (Partition (keyless 6) mod ThreadNum p_four)
                 = Some (make_chan 2)) by evaluate.
    assert (H4 : step (walk := sample_walk) (LPoll (Some (EvMessage (keyless 6))))
                   (ran p_four sample_started)
                 = Some (ran p_four (sample_started
                                     ++ [LPoll (Some (EvMessage (keyless 6)))])))
      by evaluate.
    assert (H5 : step (walk := sample_walk) LSend
                   (ran p_four (sample_started
                                ++ [LPoll (Some (EvMessage (keyless 6)))]))
                 = Some (ran p_four (sample_started
                           ++ [LPoll (Some (EvMessage (keyless 6))); LSend])))
      by evaluate.
    split; [exact H4|]. split; [exact H5|].
    assert (H6 : 0 <= Partition (keyless 6)) by evaluate.
    assert (H7 : sent (ran p_four sample_started) = []) by evaluate.
    pose proof (Hstep (ran p_four sample_started)
                  (LPoll (Some (EvMessage (keyless 6)))) (keyless 6) (make_chan 2)
                  _ H1 H2 eq_refl H6 H3 eq_refl eq_refl H4) as Hdisp.
    cbv zeta in Hdisp. destruct Hdisp as (_ & _ & Hsend & _).
    destruct (Hsend _ H5) as (Hw & _ & Hs).
    split; [exact Hw|]. etrans; [exact Hs|]. by rewrite H7.
  - assert (H1 : sample_heap p_four !! 1%nat = Some p_four) by evaluate.
    assert (H2 : NewConsumer (transport := sample_transport) 1700000000 4242
                   (sample_heap p_four) 1%nat 7 = Some (Ok (built p_four)))
      by evaluate.
    assert (H3 : exec (walk := sample_walk) sample_eight (built p_four)
                 = Some (ran p_four sample_eight)) by evaluate.
    assert (H4 : sent (ran p_four sample_eight)
                 = keyless <$> [0; 1; 2; 3; 0; 1; 2; 3]) by evaluate.
    assert (H5 : Forall (fun m => Key m = "" /\ 0 <= Partition m)
                   (sent (ran p_four sample_eight))).
    { rewrite H4. repeat (apply Forall_cons; split; [split; evaluate|]).
      apply Forall_nil_2. }
    split; [exact H3|]. split; [exact H4|]. split; [evaluate|].
    split; [exact (Hruns 1700000000 4242 (sample_heap p_four) 1%nat 7 p_four
                     (built p_four) sample_eight (ran p_four sample_eight)
                     H1 eq_refl H2 H3 H5)|].
    split; [evaluate|]. split; [evaluate|]. split; evaluate.
Defined.


Lemma C2_witness :
  sample_heap p_four !! 1%nat = Some p_four
  /\ ThreadNum p_four < 2 ^ 31
  /\ NewConsumer (transport := sample_transport) 1700000000 4242
       (sample_heap p_four) 1%nat 7 = Some (Ok (built p_four))
  /\ exec (walk := sample_walk)
       (sample_two_enqueued ++ [LWorker 3%nat; LWorker 3%nat]) (built p_four)
     = Some (ran p_four (sample_two_enqueued ++ [LWorker 3%nat; LWorker 3%nat]))
  /\ sent (ran p_four (sample_two_enqueued ++ [LWorker 3%nat; LWorker 3%nat]))
     = [msgA; msgB]
  /\ invoked (ran p_four (sample_two_enqueued ++ [LWorker 3%nat; LWorker 3%nat]))
     = [(3%nat, msgA); (3%nat, msgB)]
  /\ (exists i, (i < Z.to_nat (ThreadNum (effective p_four)))%nat
        /\ route (walk := sample_walk) (effective p_four)
             (hd (ran p_four (sample_two_enqueued ++ [LWorker 3%nat; LWorker 3%nat])))
             msgA = Some (Z.of_nat i)
        /\ route (walk := sample_walk) (effective p_four)
             (hd (ran p_four (sample_two_enqueued ++ [LWorker 3%nat; LWorker 3%nat])))
             msgB = Some (Z.of_nat i)).
Proof.
  assert (H1 : sample_heap p_four !! 1%nat = Some p_four) by evaluate.
  assert (H2 : ThreadNum p_four < 2 ^ 31) by evaluate.
  assert (H3 : NewConsumer (transport := sample_transport) 1700000000 4242
                 (sample_heap p_four) 1%nat 7 = Some (Ok (built p_four)))
    by evaluate.
  assert (H4 : exec (walk := sample_walk)
                 (sample_two_enqueued ++ [LWorker 3%nat; LWorker 3%nat])
                 (built p_four)
               = Some (ran p_four
                         (sample_two_enqueued ++ [LWorker 3%nat; LWorker 3%nat])))
    by evaluate.
  split; [exact H1|]. split; [exact H2|]. split; [exact H3|].
  split; [exact H4|]. split; [evaluate|]. split; [evaluate|].
  destruct (C2_same_key_same_worker_in_order 1700000000 4242 (sample_heap p_four)
              1%nat 7 p_four (built p_four) _ _ H1 H2 H3 H4) as [Hsame _].
  apply (Hsame msgA msgB); evaluate.
Defined.

Lemma C1_witness :
  sample_heap p_four !! 1%nat = Some p_four
  /\ AutoCommitMode p_four = 0
  /\ NewConsumer (transport := sample_transport) 1700000000 4242
       (sample_heap p_four) 1%nat 7 = Some (Ok (built p_four))
  /\ exec (walk := sample_walk) (sample_schedule 4 2500) (built p_four)
     = Some (ran p_four (sample_schedule 4 2500))
  /\ length (sent (ran p_four (sample_schedule 4 2500))) = 2500%nat
  /\ length (invoked (ran p_four (sample_schedule 4 2500))) = 2500%nat
  /\ closing (ran p_four (sample_schedule 4 2500)) = CloseReturned
  /\ commits (ran p_four (sample_schedule 4 2500)) = 1%nat.
Proof.
  assert (H1 : sample_heap p_four !! 1%nat = Some p_four) by evaluate.
  assert (H2 : AutoCommitMode p_four = 0) by reflexivity.
  assert (H3 : NewConsumer (transport := sample_transport) 1700000000 4242
                 (sample_heap p_four) 1%nat 7 = Some (Ok (built p_four)))
    by evaluate.
  assert (H4 : exec (walk := sample_walk) (sample_schedule 4 2500) (built p_four)
               = Some (ran p_four (sample_schedule 4 2500))) by evaluate.
  assert (H5 : loop (ran p_four (sample_schedule 4 2500)) = Finished) by evaluate.
  split; [exact H1|]. split; [exact H2|]. split; [exact H3|].
  split; [exact H4|]. split; [evaluate|]. split; [evaluate|]. split; [evaluate|].
  rewrite (C1_bulk_commit_only_on_exit 1700000000 4242 (sample_heap p_four)
             1%nat 7 p_four (built p_four) (sample_schedule 4 2500)
             (ran p_four (sample_schedule 4 2500)) H1 H2 H3 H4).
  rewrite H5. reflexivity.
Defined.

Lemma C4_witness :
  heap (ran p_panic sample_two_enqueued)
    !! param (hd (ran p_panic sample_two_enqueued)) = Some p_panic
  /\ workers (ran p_panic sample_two_enqueued) !! 1%nat = Some Receiving
  /\ queuelist (hd (ran p_panic sample_two_enqueued)) !! 1%nat
     = Some {| buf := [msgA; msgB]; cap := 2; closed := false |}
  /\ Dealhanle p_panic msgA = Panicked "nil map"
  /\ exists s',
       step (walk := sample_walk) (LWorker 1%nat) (ran p_panic sample_two_enqueued)
       = Some s'
       /\ logged s' = logged (ran p_panic sample_two_enqueued)
                      ++ [LogDealChanException "nil map" 1%nat]
       /\ waiting 1%nat s' = [msgB]
       /\ workers s' !! 1%nat = Some Gone
       /\ step (walk := sample_walk) (LWorker 1%nat) s' = None.
Proof.
  assert (H1 : heap (ran p_panic sample_two_enqueued)
                 !! param (hd (ran p_panic sample_two_enqueued)) = Some p_panic)
    by evaluate.
  assert (H2 : workers (ran p_panic sample_two_enqueued) !! 1%nat = Some Receiving)
    by evaluate.
  assert (H3 : queuelist (hd (ran p_panic sample_two_enqueued)) !! 1%nat
               = Some {| buf := [msgA; msgB]; cap := 2; closed := false |})
    by evaluate.
  assert (H4 : Dealhanle p_panic msgA = Panicked "nil map") by evaluate.
  split; [exact H1|]. split; [exact H2|]. split; [exact H3|]. split; [exact H4|].
  destruct (C4_worker_stops_after_panic (walk := sample_walk) p_panic 1%nat
              (ran p_panic sample_two_enqueued)
              {| buf := [msgA; msgB]; cap := 2; closed := false |}
              msgA [msgB] "nil map" H1 H2 H3 eq_refl H4)
    as (s' & Hs & Hl & _ & Hwait & Hg & Hstuck & _).
  exists s'. split; [exact Hs|]. split; [exact Hl|]. split; [exact Hwait|].
  split; [exact Hg|exact Hstuck].
Defined.

(** The claim of C9 fails: the handler returned an error for the one message
    it was given, and nothing was logged. *)
Lemma C9_counterexample :
  exec (walk := sample_walk) (sample_one_enqueued ++ [LWorker 0%nat]) (built p_fail)
  = Some (ran p_fail (sample_one_enqueued ++ [LWorker 0%nat]))
  /\ invoked (ran p_fail (sample_one_enqueued ++ [LWorker 0%nat]))
     = [(0%nat, keyless 0)]
  /\ Dealhanle p_fail (keyless 0) = Returned (Some "rejected")
  /\ logged (ran p_fail (sample_one_enqueued ++ [LWorker 0%nat])) = [].
Proof. split; [evaluate|]. split; [evaluate|]. split; evaluate. Qed.

Lemma C9_witness :
  heap (ran p_fail sample_one_enqueued)
    !! param (hd (ran p_fail sample_one_enqueued)) = Some p_fail
  /\ workers (ran p_fail sample_one_enqueued) !! 0%nat = Some Receiving
  /\ queuelist (hd (ran p_fail sample_one_enqueued)) !! 0%nat
     = Some {| buf := [keyless 0]; cap := 2; closed := false |}
  /\ Dealhanle p_fail (keyless 0) = Returned (Some "rejected")
  /\ exists s',
       step (walk := sample_walk) (LWorker 0%nat) (ran p_fail sample_one_enqueued)
       = Some s'
       /\ invoked s' = invoked (ran p_fail sample_one_enqueued) ++ [(0%nat, keyless 0)]
       /\ waiting 0%nat s' = []
       /\ logged s' = logged (ran p_fail sample_one_enqueued).
Proof.
  assert (H1 : heap (ran p_fail sample_one_enqueued)
                 !! param (hd (ran p_fail sample_one_enqueued)) = Some p_fail)
    by evaluate.
  assert (H2 : workers (ran p_fail sample_one_enqueued) !! 0%nat = Some Receiving)
    by evaluate.
  assert (H3 : queuelist (hd (ran p_fail sample_one_enqueued)) !! 0%nat
               = Some {| buf := [keyless 0]; cap := 2; closed := false |})
    by evaluate.
  assert (H4 : Dealhanle p_fail (keyless 0) = Returned (Some "rejected"))
    by evaluate.
  split; [exact H1|]. split; [exact H2|]. split; [exact H3|]. split; [exact H4|].
  destruct (C9_handler_once_result_dropped (walk := sample_walk) p_fail 0%nat
              (ran p_fail sample_one_enqueued)
              {| buf := [keyless 0]; cap := 2; closed := false |}
              (keyless 0) [] (Some "rejected") H1 H2 H3 eq_refl H4)
    as (s' & Hs & Hi & Hwait & _ & _ & Hl & _).
  exists s'. split; [exact Hs|]. split; [exact Hi|]. split; [exact Hwait|exact Hl].
Defined.

Lemma C5_witness :
  sample_heap p_four !! 1%nat = Some p_four
  /\ NewConsumer (transport := sample_transport) 1700000000 4242
       (sample_heap p_four) 1%nat 7 = Some (Ok (built p_four))
  /\ exec (walk := sample_walk) (sample_failing_subscription 100) (built p_four)
     = Some (ran p_four (sample_failing_subscription 100))
  /\ isclose (hd (ran p_four (sample_failing_subscription 100))) = true
  /\ step (walk := sample_walk) LCloseWaited
       (ran p_four (sample_failing_subscription 100)) = None
  /\ loop (ran p_four (sample_failing_subscription 100)) <> Finished
  /\ closing (ran p_four (sample_failing_subscription 100)) <> CloseReturned.
Proof.
  assert (H1 : sample_heap p_four !! 1%nat = Some p_four) by evaluate.
  assert (H2 : NewConsumer (transport := sample_transport) 1700000000 4242
                 (sample_heap p_four) 1%nat 7 = Some (Ok (built p_four)))
    by evaluate.
  assert (H3 : exec (walk := sample_walk) (sample_failing_subscription 100)
                 (built p_four)
               = Some (ran p_four (sample_failing_subscription 100)))
    by evaluate.
  split; [exact H1|]. split; [exact H2|]. split; [exact H3|].
  split; [evaluate|]. split; [evaluate|].
  destruct (C5_close_hangs_while_subscription_fails (walk := sample_walk)
              1700000000 4242 (sample_heap p_four) 1%nat 7 p_four
              (built p_four) H1 H2) as [_ Hnever].
  apply (Hnever (sample_failing_subscription 100)); [exact H3|].
  unfold sample_failing_subscription. intros Hin.
  apply elem_of_cons in Hin as [Hin|Hin]; [discriminate Hin|].
  apply elem_of_cons in Hin as [Hin|Hin]; [discriminate Hin|].
  apply elem_of_replicate in Hin as [Hin _]. discriminate Hin.
Defined.


(** ** Backpressure, shutdown and the commit modes *)

Section Shutdown.
Import Go.
Context {walk : RingWalk} {transport : Transport}.

(** Induction along a run whose labels all satisfy [Q]. *)
Lemma exec_invariant_labels (P : Sys -> Prop) (Q : Label -> Prop) :
  (forall l s s', Q l -> P s -> step l s = Some s' -> P s') ->
  forall ls s s', Forall Q ls -> P s -> exec ls s = Some s' -> P s'.
Proof.
  intros Hstep. induction ls as [|l ls IH]; intros s s' HQ HP H; simpl in H.
  - by simplify_eq.
  - destruct (step l s) as [s1|] eqn:Hs; [|done].
    apply Forall_cons in HQ as [Hl HQ]. eauto.
Qed.


(** X2. [Close()] closes nothing before the loop goroutine has finished:
    while the loop runs, [Close()] is not past [wg.Wait()], every queue is
    open and the transport is not closed.  Afterwards the queues are closed
    in the order of their index, the transport once all of them are closed,
    and when [Close()] has returned the flag is set, the wait group is at 0,
    every queue is closed and the transport was closed exactly once. *)
Theorem X2_close_returns_after_the_loop now pid mem a Id p s0 ls s :
  mem !! a = Some p ->
  NewConsumer now pid mem a Id = Some (Ok s0) ->
  exec ls s0 = Some s ->
  (closing s = CloseReturned ->
     loop s = Finished /\ isclose (hd s) = true /\ wg (hd s) = 0
     /\ Forall (fun q => closed q = true) (queuelist (hd s))
     /\ filter (fun c => c = CloseConsumer) (calls s) = [CloseConsumer])
  /\ (loop s <> Finished ->
        close_pending (closing s) = true
        /\ Forall (fun q => closed q = false) (queuelist (hd s))
        /\ CloseConsumer ∉ calls s)
  /\ (forall j q, queuelist (hd s) !! j = Some q ->
        closed q = bool_decide (j < queues_closed s)%nat)
  /\ (CloseConsumer ∈ calls s ->
        (closing s = CloseLogging \/ closing s = CloseReturned)
        /\ Forall (fun q => closed q = true) (queuelist (hd s))).
Proof.
  intros Hp H Hrun.
  pose proof (reached_lifecycle _ _ _ _ _ _ _ _ _ Hp H Hrun) as Hlife.
  pose proof Hlife as [_ _ _ Hwg Hflag _ _ Hafter Hbound Hclosed Htr].
  assert (Hle : (queues_closed s <= length (queuelist (hd s)))%nat).
  { unfold queues_closed. destruct (closing s) eqn:Ec; try lia.
    destruct (Hbound i eq_refl). lia. }
  assert (Hin : CloseConsumer ∈ calls s ->
                closing s = CloseLogging \/ closing s = CloseReturned).
  { intros Hin.
    assert (Hin' : CloseConsumer ∈ filter (fun c => c = CloseConsumer) (calls s))
      by (by apply list_elem_of_filter).
    rewrite Htr in Hin'. destruct (closing s); auto; by apply elem_of_nil in Hin'. }
  assert (Hall : closing s = CloseLogging \/ closing s = CloseReturned ->
                 Forall (fun q => closed q = true) (queuelist (hd s))).
  { intros Hc. apply closed_upto_all. unfold queues_closed in Hclosed.
    by destruct Hc as [Hc|Hc]; rewrite Hc in Hclosed. }
  split; [|split; [|split]].
  - intros Hc. rewrite Hc in Hflag, Htr.
    assert (Hl : loop s = Finished) by (apply Hafter; by rewrite Hc).
    rewrite Hl in Hwg. split; [done|]. split; [done|]. split; [done|].
    split; [|done]. apply Hall. by right.
  - intros Hl. destruct (lifecycle_open _ _ Hlife Hl) as [Hopen Hpend].
    split; [done|]. split; [done|].
    intros Hc. destruct (Hin Hc) as [E|E]; by rewrite E in Hpend.
  - intros j q Hq. by eapply closed_upto_lookup.
  - intros Hc. split; [by apply Hin|]. by apply Hall, Hin.
Qed.

(** On the ring and the queues that [NewConsumer] builds, a message of a
    non-negative partition is routed to an existing queue. *)
Lemma route_reaches_a_queue p e h :
  members (sis h) = worker_ids (Z.to_nat (ThreadNum p)) ->
  length (queuelist h) = Z.to_nat (ThreadNum p) ->
  0 < ThreadNum p < 2 ^ 31 -> 0 <= Partition e ->
  exists mod_ q, route p h e = Some mod_ /\ chan_at h mod_ = Some q.
Proof.
  intros Hm Hlen Hn He.
  destruct (route_spec p h e (Z.to_nat (ThreadNum p))) as [Hr Hb];
    try done; try lia.
  exists (spec_destination (ThreadNum p) (sis h) e).
  unfold chan_at.
  replace (spec_destination (ThreadNum p) (sis h) e <? 0) with false
    by (symmetry; apply Z.ltb_ge; lia).
  destruct (queuelist h !! _) eqn:Hq; [by eexists|].
  apply lookup_ge_None in Hq. lia.
Qed.

(** One step of a run that has not panicked, on a message of a
    non-negative partition if it brings one. *)
Lemma step_keeps_running p s0 l s s' :
  ThreadNum (effective p) < 2 ^ 31 ->
  members (sis (hd s0)) = worker_ids (Z.to_nat (ThreadNum (effective p))) ->
  (forall m, carried l = Some m -> 0 <= Partition m) ->
  same_frame s0 s /\ lifecycle (effective p) s /\ loop s <> Crashed ->
  step l s = Some s' ->
  same_frame s0 s' /\ lifecycle (effective p) s' /\ loop s' <> Crashed.
Proof.
  intros Hn Hring Hl (Hfr & Hlife & Hok) Hstep.
  pose proof (effective_positive p) as Hpos.
  split; [eapply same_frame_trans; [done|by eapply step_frame]|].
  split; [by eapply step_lifecycle|].
  destruct Hfr as [_ _ _ Hsis _ _].
  pose proof (life_param _ _ Hlife) as Hpar.
  pose proof (life_queues _ _ Hlife) as Hlen.
  assert (Hsend : forall e, 0 <= Partition e ->
            exists mod_ q, route (effective p) (hd s) e = Some mod_
                           /\ chan_at (hd s) mod_ = Some q).
  { intros e He. apply route_reaches_a_queue; try done; try lia.
    by rewrite Hsis, Hring. }
  assert (Hq : loop s <> Finished ->
               forall mod_ q, chan_at (hd s) mod_ = Some q -> closed q = false).
  { intros Hnf mod_ q Hq. apply chan_at_Some in Hq.
    destruct (lifecycle_open _ _ Hlife Hnf) as [Hopen _].
    exact (Forall_lookup_1 _ _ _ _ Hopen Hq). }
  clear Hlife Hlen.
  unfold step in Hstep. rewrite Hpar in Hstep.
  step_cases Hstep; simpl; try congruence.
  all: exfalso; simpl in *.
  all: try match goal with
       | E : route _ _ ?e = _ |- _ =>
           destruct (Hsend e) as (mod' & q' & Hr' & Hq');
             [by apply Hl|congruence]
       end.
  all: match goal with
       | E : chan_at _ _ = Some ?q, C : closed ?q = true |- _ =>
           rewrite (Hq ltac:(done) _ _ E) in C; discriminate C
       end.
Qed.

(** What a step adds to the messages that were enqueued or are on their way
    to a queue. *)
Lemma step_dispatches p l s s' :
  heap s !! param (hd s) = Some p ->
  step l s = Some s' ->
  loop s' <> Crashed ->
  sent s' ++ in_flight s' = sent s ++ in_flight s ++ option_list (carried l).
Proof.
  intros Hpar Hstep Hok.
  unfold step in Hstep. rewrite Hpar in Hstep.
  step_cases Hstep.
  all: unfold in_flight; simpl in *.
  all: try match goal with E : loop _ = _ |- _ => rewrite E end.
  all: simpl; rewrite ?app_nil_r; try done.
Qed.

(** A run that does not panic, on messages of non-negative partitions. *)
Lemma exec_keeps_running p s0 ls s1 s :
  ThreadNum (effective p) < 2 ^ 31 ->
  members (sis (hd s0)) = worker_ids (Z.to_nat (ThreadNum (effective p))) ->
  Forall (fun l => forall m, carried l = Some m -> 0 <= Partition m) ls ->
  same_frame s0 s1 /\ lifecycle (effective p) s1 /\ loop s1 <> Crashed ->
  exec ls s1 = Some s ->
  (same_frame s0 s /\ lifecycle (effective p) s /\ loop s <> Crashed)
  /\ sent s ++ in_flight s = sent s1 ++ in_flight s1 ++ omap carried ls.
Proof.
  intros Hn Hring. revert s1.
  induction ls as [|l ls IH]; intros s1 Hls Hinv Hrun; simpl in Hrun.
  - simplify_eq. split; [done|]. simpl. by rewrite app_nil_r.
  - destruct (step l s1) as [s2|] eqn:Hstep; [|done].
    apply Forall_cons in Hls as [Hl Hls].
    pose proof (step_keeps_running _ _ _ _ _ Hn Hring Hl Hinv Hstep) as Hinv2.
    destruct (IH s2 Hls Hinv2 Hrun) as [Hinv' Heq].
    split; [done|]. rewrite Heq.
    destruct Hinv as (_ & [Hpar _ _ _ _ _ _ _ _] & _).
    destruct Hinv2 as (_ & _ & Hok2).
    rewrite (app_assoc (sent s2)), (step_dispatches _ _ _ _ Hpar Hstep Hok2).
    rewrite <- !app_assoc. do 2 f_equal.
    simpl. by destruct (carried l).
Qed.

Lemma NewConsumer_running now pid mem a Id p s0 :
  mem !! a = Some p ->
  ThreadNum p < 2 ^ 31 ->
  NewConsumer now pid mem a Id = Some (Ok s0) ->
  ThreadNum (effective p) < 2 ^ 31
  /\ members (sis (hd s0)) = worker_ids (Z.to_nat (ThreadNum (effective p)))
  /\ (same_frame s0 s0 /\ lifecycle (effective p) s0 /\ loop s0 <> Crashed)
  /\ sent s0 = [] /\ in_flight s0 = [].
Proof.
  intros Hp Hmax H.
  pose proof (effective_positive p) as Hpos.
  split. { rewrite effective_ThreadNum. destruct (ThreadNum p <=? 0); lia. }
  split.
  { by destruct (reached_shape now pid mem a Id p s0 [] s0 Hp H eq_refl)
      as (_ & ? & _). }
  pose proof (NewConsumer_lifecycle _ _ _ _ _ _ _ Hp H) as Hlife.
  destruct (NewConsumer_inv _ _ _ _ _ _ _ Hp H) as [_ Hs0].
  assert (Hloop : loop s0 = NotStarted) by (by rewrite Hs0).
  assert (Hsent : sent s0 = []) by (by rewrite Hs0).
  split.
  { split; [apply same_frame_refl|]. split; [done|]. by rewrite Hloop. }
  unfold in_flight. by rewrite Hloop.
Qed.

(** X3. As long as the messages that arrive carry a non-negative partition,
    the goroutine of [Start] never panics: the remainder of line 138 has a
    non-zero divisor, the index of line 141 is that of an existing queue,
    and that queue is not closed while the loop runs. *)
Theorem X3_dispatcher_never_panics now pid mem a Id p s0 ls s :
  mem !! a = Some p ->
  ThreadNum p < 2 ^ 31 ->
  NewConsumer now pid mem a Id = Some (Ok s0) ->
  Forall (fun l => forall m, carried l = Some m -> 0 <= Partition m) ls ->
  exec ls s0 = Some s ->
  loop s <> Crashed.
Proof.
  intros Hp Hmax H Hls Hrun.
  destruct (NewConsumer_running _ _ _ _ _ _ _ Hp Hmax H)
    as (Hn & Hring & Hinv & _ & _).
  by destruct (exec_keeps_running _ _ _ _ _ Hn Hring Hls Hinv Hrun)
    as [(_ & _ & Hok) _].
Qed.

(** X13. As long as the messages that arrive carry a non-negative
    partition, each of them is enqueued once, in the order of arrival, the
    last one possibly still waiting for room in its queue: the loop drops
    no message, repeats none and never overtakes. *)
Theorem X13_messages_are_enqueued_in_arrival_order now pid mem a Id p s0 ls s :
  mem !! a = Some p ->
  ThreadNum p < 2 ^ 31 ->
  NewConsumer now pid mem a Id = Some (Ok s0) ->
  Forall (fun l => forall m, carried l = Some m -> 0 <= Partition m) ls ->
  exec ls s0 = Some s ->
  omap carried ls = sent s ++ in_flight s.
Proof.
  intros Hp Hmax H Hls Hrun.
  destruct (NewConsumer_running _ _ _ _ _ _ _ Hp Hmax H)
    as (Hn & Hring & Hinv & Hsent & Hfl).
  destruct (exec_keeps_running _ _ _ _ _ Hn Hring Hls Hinv Hrun) as [_ Heq].
  by rewrite Heq, Hsent, Hfl.
Qed.

(** With a handler that does not panic, a worker returns only when its
    queue is closed and empty, and nothing is put into that queue later. *)
Lemma step_gone_drained p l s s' :
  (forall m, exists err, Dealhanle p m = Returned err) ->
  lifecycle p s ->
  (forall i, workers s !! i = Some Gone ->
     exists q, queuelist (hd s) !! i = Some q /\ closed q = true /\ buf q = []) ->
  step l s = Some s' ->
  forall i, workers s' !! i = Some Gone ->
    exists q, queuelist (hd s') !! i = Some q /\ closed q = true /\ buf q = [].
Proof.
  intros Hnp Hlife HR H.
  pose proof (life_param _ _ Hlife) as Hpar.
  unfold step in H. rewrite Hpar in H.
  step_cases H; simpl.
  all: try (intros i Hi; exact (HR i Hi)).
  all: repeat match goal with
       | E : chan_at _ _ = Some _ |- _ => apply chan_at_Some in E
       | E : Dealhanle _ ?m = Panicked _ |- _ =>
           destruct (Hnp m) as [? ?]; congruence
       end.
  - (* the enqueue *)
    intros i Hi. destruct (HR i Hi) as (q & Hq & Hc & Hb).
    exists q. by rewrite list_lookup_insert_ne by (intros <-; congruence).
  - (* the worker sees its queue closed *)
    intros j Hj. destruct (decide (i = j)) as [->|Hne].
    + by eexists.
    + rewrite list_lookup_insert_ne in Hj by done. exact (HR j Hj).
  - (* a message is taken *)
    intros j Hj. destruct (HR j Hj) as (q & Hq & Hc & Hb).
    exists q. by rewrite list_lookup_insert_ne by (intros <-; congruence).
  - (* [Close] closes a queue *)
    intros j Hj. destruct (HR j Hj) as (q & Hq & Hc & Hb).
    exists q. by rewrite list_lookup_insert_ne by (intros <-; congruence).
Qed.

(** X4. With a handler that does not panic, no enqueued message is lost at
    shutdown: a worker that has returned has passed to the handler every
    message that was routed to it, and its queue is empty. *)
Theorem X4_nothing_is_lost_at_shutdown now pid mem a Id p s0 ls s i :
  mem !! a = Some p ->
  (forall m, exists err, Dealhanle p m = Returned err) ->
  NewConsumer now pid mem a Id = Some (Ok s0) ->
  exec ls s0 = Some s ->
  workers s !! i = Some Gone ->
  waiting i s = [] /\ invoked_by i s = sent_to (effective p) i s.
Proof.
  intros Hp Hnp H Hrun Hi.
  assert (Hnp' : forall m, exists err, Dealhanle (effective p) m = Returned err).
  { intros m. unfold effective. destruct (ThreadNum p <=? 0); apply Hnp. }
  assert (Hinv : lifecycle (effective p) s /\
    forall i, workers s !! i = Some Gone ->
      exists q, queuelist (hd s) !! i = Some q /\ closed q = true /\ buf q = []).
  { refine (exec_invariant
      (fun s => lifecycle (effective p) s /\
         forall i, workers s !! i = Some Gone ->
           exists q, queuelist (hd s) !! i = Some q /\ closed q = true
                     /\ buf q = []) _ ls s0 s _ Hrun).
    - intros l s1 s2 [Hl HR] Hstep.
      split; [by eapply step_lifecycle|by eapply step_gone_drained].
    - split; [by eapply NewConsumer_lifecycle|].
      destruct (NewConsumer_inv _ _ _ _ _ _ _ Hp H) as [_ ->]. simpl.
      intros j Hj. apply lookup_replicate in Hj as [? _]. done. }
  destruct Hinv as [_ HR]. destruct (HR i Hi) as (q & Hq & Hc & Hb).
  assert (Hw : waiting i s = []) by (unfold waiting; by rewrite Hq).
  split; [done|].
  pose proof (NewConsumer_initial _ _ _ _ _ _ _ Hp H) as Hinit.
  destruct (exec_inv _ _ _ _ Hinit Hrun) as [_ _ Hf _].
  by rewrite <- Hf, Hw, app_nil_r.
Qed.

Lemma exec_cons l ls s : exec (l :: ls) s = step l s ≫= exec ls.
Proof. simpl. by destruct (step l s). Qed.

Lemma exec_app_some ls1 ls2 s s1 :
  exec ls1 s = Some s1 -> exec (ls1 ++ ls2) s = exec ls2 s1.
Proof. intros H. by rewrite exec_app, H. Qed.

(** The steps of [Close()] and of the loop on its way out, one by one. *)
Lemma do_close_begin p s :
  heap s !! param (hd s) = Some p -> closing s = CloseNotCalled ->
  exists s', step LCloseBegin s = Some s' /\ loop s' = loop s
    /\ isclose (hd s') = true /\ exit (hd s') = exit (hd s)
    /\ closing s' = if ConsumerMode p =? 1 then CloseSignalling else CloseWaiting.
Proof.
  intros Hp Hc. unfold step. rewrite Hp, Hc. unfold close_begin.
  exists (close_begin p s). unfold close_begin.
  split; [by destruct (loop s)|].
  by destruct (ConsumerMode p =? 1).
Qed.

Lemma do_close_signal p s :
  heap s !! param (hd s) = Some p -> closing s = CloseSignalling ->
  exit (hd s) = Some [] ->
  exists s', step LCloseSignal s = Some s' /\ loop s' = loop s
    /\ isclose (hd s') = isclose (hd s) /\ exit (hd s') = Some [1]
    /\ closing s' = CloseWaiting.
Proof.
  intros Hp Hc He. unfold step. rewrite Hp, Hc. unfold close_signal.
  rewrite He. eexists. split; [by destruct (loop s)|]. done.
Qed.

Lemma do_wake p s index :
  heap s !! param (hd s) = Some p -> loop s = Awaiting index ->
  ConsumerMode p = 0 \/ (ConsumerMode p <> 0 /\ exit (hd s) = Some [1]) ->
  exists s', exec (wake_labels p (loop s)) s = Some s'
    /\ loop s' = Looping index /\ isclose (hd s') = isclose (hd s)
    /\ closing s' = closing s.
Proof.
  intros Hp Hl Hm. unfold wake_labels. rewrite Hl.
  destruct Hm as [Hm|[Hm He]].
  - rewrite Hm. simpl. unfold step. rewrite Hp, Hl, Hm. simpl. by eexists.
  - apply Z.eqb_neq in Hm. rewrite Hm. simpl. unfold step.
    rewrite Hp, Hl, Hm, He. by eexists.
Qed.

Lemma do_loop_exit p s index :
  heap s !! param (hd s) = Some p -> loop s = Looping index ->
  isclose (hd s) = true ->
  exists s', step LLoopExit s = Some s' /\ loop s' = Finished
    /\ closing s' = closing s.
Proof.
  intros Hp Hl Hc. unfold step. rewrite Hp, Hl, Hc.
  eexists. split; [done|]. by destruct (AutoCommitMode p =? 1).
Qed.

Lemma do_close_waited p s :
  lifecycle p s -> loop s = Finished -> closing s = CloseWaiting ->
  exists s', step LCloseWaited s = Some s' /\ loop s' = Finished
    /\ closing s' = CloseQueues 0.
Proof.
  intros Hlife Hl Hc. pose proof (life_wg _ _ Hlife) as Hwg.
  rewrite Hl in Hwg. unfold step.
  rewrite (life_param _ _ Hlife), Hc. unfold close_waited. rewrite Hwg.
  by eexists.
Qed.

Lemma do_close_queues p (k : nat) s i :
  lifecycle p s -> closing s = CloseQueues i ->
  i + Z.of_nat k = ThreadNum p ->
  exists s', exec (replicate k LCloseQueue) s = Some s'
    /\ loop s' = loop s /\ closing s' = CloseQueues (ThreadNum p).
Proof.
  revert s i. induction k as [|k IH]; intros s i Hlife Hc Hi.
  - exists s. replace (ThreadNum p) with i by lia. done.
  - pose proof Hlife as [Hp Hlen _ _ _ _ _ _ Hbound Hclosed _].
    destruct (Hbound i Hc) as [Hi0 _].
    unfold queues_closed in Hclosed. rewrite Hc in Hclosed.
    destruct (queuelist (hd s) !! Z.to_nat i) as [q|] eqn:Hq;
      [|apply lookup_ge_None in Hq; lia].
    assert (Hopen : closed q = false).
    { rewrite (closed_upto_lookup _ _ _ _ Hclosed ltac:(lia) Hq).
      apply bool_decide_eq_false. lia. }
    assert (Hstep : exists s1, step LCloseQueue s = Some s1
              /\ loop s1 = loop s /\ closing s1 = CloseQueues (i + 1)).
    { unfold step. rewrite Hp, Hc. unfold close_queue, chan_at.
      replace (i <? ThreadNum p) with true by (symmetry; apply Z.ltb_lt; lia).
      replace (i <? 0) with false by (symmetry; apply Z.ltb_ge; lia).
      rewrite Hq, Hopen. eexists. split; [by destruct (loop s)|done]. }
    destruct Hstep as (s1 & Hs1 & Hl1 & Hc1).
    destruct (IH s1 (i + 1)) as (s' & Hrun & Hl' & Hc');
      [by eapply step_lifecycle|done|lia|].
    exists s'. simpl. rewrite Hs1. split; [done|]. by rewrite Hl', Hl1.
Qed.

Lemma do_close_transport p s :
  heap s !! param (hd s) = Some p -> closing s = CloseQueues (ThreadNum p) ->
  exists s', exec [LCloseTransport; LCloseEnd] s = Some s'
    /\ loop s' = loop s /\ closing s' = CloseReturned.
Proof.
  intros Hp Hc. simpl. unfold step at 1. rewrite Hp, Hc.
  unfold close_transport. rewrite Z.ltb_irrefl.
  unfold step. simpl. rewrite Hp. by eexists.
Qed.

(** X5. With [Close()] not yet called and the loop at its test, or waiting
    in [Poll] or, with the exit channel of mode 1, in the [select],
    [Close()] goes through: the flag is set and, in mode 1, the exit signal
    sent; [Poll] returns, or the [select] takes the signal; the loop sees
    the flag, issues one last bulk commit unless the commit mode is 1, and
    finishes; [Close()] then closes the queues one after the other and the
    transport, and returns. *)
Theorem X5_close_returns_when_the_loop_is_idle now pid mem a Id p s0 ls s index :
  mem !! a = Some p ->
  NewConsumer now pid mem a Id = Some (Ok s0) ->
  exec ls s0 = Some s ->
  closing s = CloseNotCalled ->
  loop s = Looping index
  \/ (loop s = Awaiting index /\ (ConsumerMode p = 0 \/ ConsumerMode p = 1)) ->
  exists s', exec (close_labels (effective p) (loop s)) s = Some s'
    /\ closing s' = CloseReturned /\ loop s' = Finished
    /\ commits s' = (if AutoCommitMode p =? 1 then 0%nat else 1%nat).
Proof.
  intros Hp H Hrun Hcl Hloop.
  set (e := effective p).
  assert (Hmode : ConsumerMode e = ConsumerMode p)
    by (unfold e, effective; by destruct (ThreadNum p <=? 0)).
  pose proof (effective_positive p) as Hpos. fold e in Hpos.
  pose proof (reached_lifecycle _ _ _ _ _ _ _ _ _ Hp H Hrun) as Hlife.
  fold e in Hlife.
  assert (Hkeep : forall ls1 s1, exec ls1 s = Some s1 -> lifecycle e s1).
  { intros ls1 s1 H1. by eapply exec_lifecycle. }
  assert (Hexit : exit (hd s) = if ConsumerMode e =? 1 then Some [] else None).
  { destruct (life_exit _ _ Hlife) as [?|(_ & _ & Hc & _)]; [done|].
    by destruct Hc. }
  (* the flag, and the exit signal in mode 1 *)
  assert (Hflagged : exists s1,
    exec ([LCloseBegin] ++ (if ConsumerMode e =? 1 then [LCloseSignal] else [])) s
    = Some s1
    /\ loop s1 = loop s /\ isclose (hd s1) = true /\ closing s1 = CloseWaiting
    /\ (ConsumerMode e = 1 -> exit (hd s1) = Some [1])).
  { destruct (do_close_begin e s) as (s1 & Hs1 & Hl1 & Hf1 & He1 & Hc1);
      [by apply (life_param _ _ Hlife)|done|].
    simpl. rewrite Hs1. destruct (ConsumerMode e =? 1) eqn:Em.
    - destruct (do_close_signal e s1) as (s2 & Hs2 & Hl2 & Hf2 & He2 & Hc2).
      { apply (life_param e). apply (Hkeep [LCloseBegin]). simpl. by rewrite Hs1. }
      { done. }
      { by rewrite He1. }
      exists s2. simpl. rewrite Hs2. split; [done|].
      split; [by rewrite Hl2|]. split; [by rewrite Hf2|]. done.
    - exists s1. simpl. split; [done|]. split; [done|]. split; [done|].
      split; [done|]. intros E. rewrite E in Em. done. }
  destruct Hflagged as (s1 & Hrun1 & Hl1 & Hf1 & Hc1 & He1).
  pose proof (Hkeep _ _ Hrun1) as Hlife1.
  (* the loop comes back to its test *)
  assert (Hback : exists s2,
    exec (wake_labels e (loop s)) s1 = Some s2
    /\ loop s2 = Looping index /\ isclose (hd s2) = true
    /\ closing s2 = CloseWaiting).
  { destruct Hloop as [Hloop|[Hloop Hm]].
    - rewrite Hloop. exists s1. simpl. by rewrite <- Hloop.
    - rewrite <- Hl1.
      destruct (do_wake e s1 index) as (s2 & Hs2 & Hl2 & Hf2 & Hc2).
      { apply (life_param _ _ Hlife1). }
      { by rewrite Hl1. }
      { rewrite Hmode. destruct Hm as [Hm|Hm]; [by left|right].
        split; [lia|]. apply He1. by rewrite Hmode. }
      exists s2. split; [done|]. split; [done|].
      split; [by rewrite Hf2|by rewrite Hc2]. }
  destruct Hback as (s2 & Hrun2 & Hl2 & Hf2 & Hc2).
  assert (Hrun12 : exec (([LCloseBegin]
      ++ (if ConsumerMode e =? 1 then [LCloseSignal] else []))
      ++ wake_labels e (loop s)) s = Some s2)
    by (by rewrite exec_app, Hrun1).
  pose proof (Hkeep _ _ Hrun12) as Hlife2.
  (* the loop leaves *)
  destruct (do_loop_exit e s2 index) as (s3 & Hs3 & Hl3 & Hc3);
    [by apply (life_param _ _ Hlife2)|done|done|].
  pose proof (step_lifecycle _ _ _ _ Hlife2 Hs3) as Hlife3.
  rewrite Hc2 in Hc3.
  (* [Close()] wakes up and closes the queues and the transport *)
  destruct (do_close_waited e s3 Hlife3 Hl3 Hc3) as (s4 & Hs4 & Hl4 & Hc4).
  pose proof (step_lifecycle _ _ _ _ Hlife3 Hs4) as Hlife4.
  destruct (do_close_queues e (Z.to_nat (ThreadNum e)) s4 0 Hlife4 Hc4)
    as (s5 & Hrun5 & Hl5 & Hc5); [lia|].
  pose proof (exec_lifecycle _ _ _ _ Hlife4 Hrun5) as Hlife5.
  destruct (do_close_transport e s5 (life_param _ _ Hlife5) Hc5)
    as (s6 & Hrun6 & Hl6 & Hc6).
  assert (Hrun34 : exec [LLoopExit; LCloseWaited] s2 = Some s4)
    by (rewrite exec_cons, Hs3; change (exec [LCloseWaited] s3 = Some s4);
        by rewrite exec_cons, Hs4).
  assert (Hall : exec (close_labels e (loop s)) s = Some s6).
  { replace (close_labels e (loop s)) with
      ((([LCloseBegin] ++ (if ConsumerMode e =? 1 then [LCloseSignal] else []))
        ++ wake_labels e (loop s))
       ++ [LLoopExit; LCloseWaited]
       ++ replicate (Z.to_nat (ThreadNum e)) LCloseQueue
       ++ [LCloseTransport; LCloseEnd])
      by (unfold close_labels; by rewrite <- !app_assoc).
    rewrite (exec_app_some _ _ _ _ Hrun12), (exec_app_some _ _ _ _ Hrun34).
    by rewrite (exec_app_some _ _ _ _ Hrun5). }
  exists s6. split; [done|]. split; [done|].
  split; [by rewrite Hl6, Hl5, Hl4|].
  pose proof (NewConsumer_initial _ _ _ _ _ _ _ Hp H) as Hinit.
  assert (Hfull : exec (ls ++ close_labels e (loop s)) s0 = Some s6)
    by (by rewrite exec_app, Hrun).
  destruct (exec_inv _ _ _ _ Hinit Hfull) as [_ _ _ Hc].
  rewrite Hc, Hl6, Hl5, Hl4. unfold e, effective. by destruct (ThreadNum p <=? 0).
Qed.

(** X14. With a [ConsumerMode] other than 0 and 1 the loop waits in a
    [select] whose exit channel is nil, and [Close()] sends no signal: once
    the loop is there it stays there until an event arrives, whatever else
    happens, and [Close()] does not get past [wg.Wait()]. *)
Theorem X14_close_waits_for_an_event_in_other_modes
    now pid mem a Id p s0 ls s index ls' s' :
  mem !! a = Some p ->
  NewConsumer now pid mem a Id = Some (Ok s0) ->
  exec ls s0 = Some s ->
  ConsumerMode p <> 0 -> ConsumerMode p <> 1 ->
  loop s = Awaiting index ->
  Forall (fun l => forall ev, l <> LEvent ev) ls' ->
  exec ls' s = Some s' ->
  loop s' = Awaiting index /\ close_pending (closing s') = true
  /\ closing s' <> CloseReturned.
Proof.
  intros Hp H Hrun Hm0 Hm1 Hl Hls Hrun'.
  set (e := effective p).
  assert (Hmode : ConsumerMode e = ConsumerMode p)
    by (unfold e, effective; by destruct (ThreadNum p <=? 0)).
  pose proof (reached_lifecycle _ _ _ _ _ _ _ _ _ Hp H Hrun) as Hlife.
  fold e in Hlife.
  cut (lifecycle e s' /\ loop s' = Awaiting index).
  { intros [Hlife' Hl']. split; [done|].
    destruct (lifecycle_open _ _ Hlife') as [_ Hpend]; [by rewrite Hl'|].
    split; [done|]. intros E. by rewrite E in Hpend. }
  refine (exec_invariant_labels
    (fun s => lifecycle e s /\ loop s = Awaiting index) _ _ ls' s s' Hls _ Hrun');
    [|done].
  clear Hrun' Hls s' Hrun Hlife Hl s.
  intros l s s' Hnev [Hlife Hl] Hstep.
  split; [by eapply step_lifecycle|].
  pose proof (life_param _ _ Hlife) as Hpar.
  assert (Hexit : exit (hd s) = None).
  { destruct (life_exit _ _ Hlife) as [E|(_ & E & _)]; [|lia].
    rewrite E. replace (ConsumerMode e =? 1) with false; [done|].
    symmetry. apply Z.eqb_neq. lia. }
  assert (Hwg : wg (hd s) = 1).
  { rewrite (life_wg _ _ Hlife). by rewrite Hl. }
  assert (Hmode0 : (ConsumerMode e =? 0) = false) by (apply Z.eqb_neq; lia).
  unfold step in Hstep. rewrite Hpar, Hl in Hstep.
  destruct l; try discriminate Hstep.
  - by rewrite Hmode0 in Hstep.
  - rewrite Hmode0, Hexit in Hstep. done.
  - by destruct (Hnev ev).
  - unfold worker_turn in Hstep. repeat case_match; by simplify_eq.
  - destruct (closing s); simplify_eq. unfold close_begin.
    by destruct (ConsumerMode e =? 1).
  - destruct (closing s); try done. unfold close_signal in Hstep.
    by rewrite Hexit in Hstep.
  - destruct (closing s); try done. unfold close_waited in Hstep.
    by rewrite Hwg in Hstep.
  - destruct (closing s) eqn:Ec; try done.
    by destruct (lifecycle_open _ _ Hlife) as [_ Hpend];
      [rewrite Hl|rewrite Ec in Hpend].
  - destruct (closing s) eqn:Ec; try done.
    by destruct (lifecycle_open _ _ Hlife) as [_ Hpend];
      [rewrite Hl|rewrite Ec in Hpend].
  - destruct (closing s) eqn:Ec; try done.
    by destruct (lifecycle_open _ _ Hlife) as [_ Hpend];
      [rewrite Hl|rewrite Ec in Hpend].
  - by simplify_eq.
Qed.

End Shutdown.

(** ** A stalled dispatcher, and the calls on the transport *)

Section Backpressure.
Import Go.
Context {walk : RingWalk} {transport : Transport}.

(** X6. When a worker has returned after a panic and its queue is full, a
    message routed to that worker stays in the dispatcher for ever: the loop
    takes no further turn, nothing more is enqueued, and [Close()] does not
    get past [wg.Wait()]. *)
Theorem X6_dead_worker_stalls_the_dispatcher s index msg mod_ q :
  loop s = Sending index msg mod_ ->
  chan_at (hd s) mod_ = Some q ->
  closed q = false ->
  length (buf q) = cap q ->
  workers s !! Z.to_nat mod_ = Some Gone ->
  wg (hd s) = 1 ->
  close_pending (closing s) = true ->
  forall ls s', exec ls s = Some s' ->
    loop s' = Sending index msg mod_ /\ sent s' = sent s
    /\ waiting (Z.to_nat mod_) s' = buf q
    /\ close_pending (closing s') = true /\ closing s' <> CloseReturned.
Proof.
  intros Hl Hq Hopen Hfull Hgone Hwg Hcl ls s' Hrun.
  cut (loop s' = Sending index msg mod_ /\ sent s' = sent s
       /\ chan_at (hd s') mod_ = Some q
       /\ workers s' !! Z.to_nat mod_ = Some Gone /\ wg (hd s') = 1
       /\ close_pending (closing s') = true).
  { intros (? & ? & Hq' & _ & _ & Hpend). split; [done|]. split; [done|].
    split. { apply chan_at_Some in Hq'. unfold waiting. by rewrite Hq'. }
    split; [done|]. intros E. by rewrite E in Hpend. }
  refine (exec_invariant
    (fun s' => loop s' = Sending index msg mod_ /\ sent s' = sent s
       /\ chan_at (hd s') mod_ = Some q
       /\ workers s' !! Z.to_nat mod_ = Some Gone /\ wg (hd s') = 1
       /\ close_pending (closing s') = true) _ ls s s' _ Hrun); [|done].
  clear Hrun s' Hl Hq Hgone Hwg Hcl.
  intros l s1 s2 (Hl & Hs & Hq & Hg & Hw & Hc) Hstep.
  pose proof Hq as Hq'. apply chan_at_Some in Hq'.
  assert (Hpos : (mod_ <? 0) = false) by (unfold chan_at in Hq; by case_match).
  step_cases Hstep; simpl; unfold chan_at; simpl; rewrite ?Hpos.
  all: try (rewrite Hw in *; done).
  all: try done.
  all: try (match goal with
            | E : decide (length (buf ?c) < cap ?c)%nat = left _ |- _ =>
                exfalso; assert (c = q) by congruence; subst c; lia
            end).
  all: try (match goal with
            | E : workers _ !! ?j = Some Receiving |- _ =>
                assert (j <> Z.to_nat mod_) by congruence
            end;
            rewrite ?list_lookup_insert_ne by done; done).
  all: try (exfalso; congruence).
  all: exfalso; lia.
Qed.

Lemma committed_app s extra :
  committed_messages (emit extra s)
  = committed_messages s
    ++ omap (fun a => match a with CommitMessage m => Some m | _ => None end) extra.
Proof. unfold committed_messages. simpl. by rewrite omap_app. Qed.

Lemma commit_policy_messages p msg index :
  omap (fun a => match a with CommitMessage m => Some m | _ => None end)
       (commit_policy p msg index).1
  = if AutoCommitMode p =? 1 then [msg] else [].
Proof.
  unfold commit_policy.
  destruct (AutoCommitMode p =? 0) eqn:E0.
  - apply Z.eqb_eq in E0. rewrite E0. by destruct (index >? 1000).
  - by destruct (AutoCommitMode p =? 1).
Qed.

(** X7. Leaving aside the calls of [CommitMessage] by the caller, the
    messages committed one by one are, in commit mode 1, exactly the enqueued
    messages in the order of their dispatch, and none in the other modes;
    and in mode 1 no bulk commit is ever issued, not even on [Close()]. *)
Theorem X7_one_commit_per_message_in_mode_1 now pid mem a Id p s0 ls s :
  mem !! a = Some p ->
  NewConsumer now pid mem a Id = Some (Ok s0) ->
  Forall (fun l => forall m, l <> LCommitMessage m) ls ->
  exec ls s0 = Some s ->
  committed_messages s = (if AutoCommitMode p =? 1 then sent s else [])
  /\ (AutoCommitMode p = 1 -> commits s = 0%nat).
Proof.
  intros Hp H Hls Hrun.
  assert (Hmode : AutoCommitMode (effective p) = AutoCommitMode p)
    by (unfold effective; by destruct (ThreadNum p <=? 0)).
  split.
  - cut (heap s !! param (hd s) = Some (effective p)
         /\ committed_messages s
            = if AutoCommitMode p =? 1 then sent s else []); [tauto|].
    refine (exec_invariant_labels
      (fun s => heap s !! param (hd s) = Some (effective p)
         /\ committed_messages s
            = if AutoCommitMode p =? 1 then sent s else [])
      _ _ ls s0 s Hls _ Hrun).
    + clear Hrun Hls s. intros l s s' Hl [Hpar Hcm] Hstep.
      split.
      { destruct (step_frame _ _ _ Hstep) as [Hh Hq _ _ _ _]. by rewrite Hh, Hq. }
      unfold step in Hstep. rewrite Hpar in Hstep.
      step_cases Hstep.
      all: try (by destruct (Hl m)).
      all: repeat match goal with
           | E : commit_policy ?p ?m ?i = (?acts, _) |- _ =>
               pose proof (commit_policy_messages p m i) as Hpol;
               rewrite E in Hpol; simpl in Hpol; rewrite Hmode in Hpol; clear E
           end.
      all: unfold committed_messages in *; simpl;
        rewrite ?omap_app; simpl; rewrite ?Hcm, ?app_nil_r; try done.
      all: rewrite Hpol;
        match goal with E : (AutoCommitMode _ =? 1) = _ |- _ => by rewrite E end.
    + split; [by eapply NewConsumer_param|].
      destruct (NewConsumer_inv _ _ _ _ _ _ _ Hp H) as [_ ->].
      by destruct (AutoCommitMode p =? 1).
  - intros Hm.
    pose proof (NewConsumer_initial _ _ _ _ _ _ _ Hp H) as Hinit.
    destruct (exec_inv _ _ _ _ Hinit Hrun) as [_ _ _ Hc].
    rewrite Hc, Hmode, Hm. by destruct (loop s).
Qed.

(** X8. The calls on the transport fit the consumer mode: in poll mode the
    consumer never calls [Assign] or [Unassign] (a rebalance event is only
    logged), in channel mode it never calls [Poll], and it subscribes to
    nothing but the configured topic. *)
Theorem X8_calls_fit_the_consumer_mode now pid mem a Id p s0 ls s :
  mem !! a = Some p ->
  NewConsumer now pid mem a Id = Some (Ok s0) ->
  exec ls s0 = Some s ->
  Forall (fun c => call_fits_mode p c = true) (calls s).
Proof.
  intros Hp H Hrun.
  assert (Hfit : forall c, call_fits_mode (effective p) c = call_fits_mode p c).
  { intros c. unfold effective. by destruct (ThreadNum p <=? 0). }
  cut (heap s !! param (hd s) = Some (effective p)
       /\ Forall (fun c => call_fits_mode (effective p) c = true) (calls s)).
  { intros [_ Hall]. eapply Forall_impl; [exact Hall|].
    intros c Hc. simpl in *. by rewrite <- Hfit. }
  refine (exec_invariant
    (fun s => heap s !! param (hd s) = Some (effective p)
       /\ Forall (fun c => call_fits_mode (effective p) c = true) (calls s))
    _ ls s0 s _ Hrun).
  - clear Hrun s. intros l s s' [Hpar Hall] Hstep.
    split.
    { destruct (step_frame _ _ _ Hstep) as [Hh Hq _ _ _ _]. by rewrite Hh, Hq. }
    unfold step in Hstep. rewrite Hpar in Hstep.
    step_cases Hstep; simpl; rewrite ?Forall_app; repeat split; try done.
    all: repeat match goal with
         | E : _ && _ = true |- _ => apply andb_true_iff in E as [? ?]
         end.
    all: try (repeat constructor; simpl; try done;
              first [by apply String.eqb_refl | done]).
    all: try (apply Forall_forall; intros call Hcall;
              match goal with
              | E : commit_policy ?p ?m ?i = (?acts, _) |- _ =>
                  pose proof (commit_policy_calls p m i call) as Hcp;
                  rewrite E in Hcp; destruct (Hcp Hcall) as [-> | ->]; done
              end).
    all: repeat constructor; simpl;
      match goal with E : (ConsumerMode _ =? 0) = _ |- _ => by rewrite E end.
  - split; [by eapply NewConsumer_param|].
    destruct (NewConsumer_inv _ _ _ _ _ _ _ Hp H) as [_ ->]. constructor.
Qed.

End Backpressure.

(** ** The client id *)

Section ClientId.
Import Go.

(** A number of the range of [int] printed with [%d] is read back by
    [Atoi]. *)
Lemma Atoi_itoa_int z : is_int z = true -> Atoi (itoa z) = Some z.
Proof.
  intros Hz. unfold is_int in Hz. apply andb_true_iff in Hz as [Hlo Hhi].
  apply Z.leb_le in Hlo. apply Z.ltb_lt in Hhi.
  change (2 ^ 63) with 9223372036854775808 in *.
  destruct (Z.ltb_spec z 0) as [Hneg|Hpos].
  - unfold itoa. replace (z <? 0) with true by (symmetry; apply Z.ltb_lt; lia).
    unfold utoa.
    destruct (utoa_aux_head 19 (- z) "") as (d & r & Heq & Hd).
    destruct (parse_utoa_aux 19 (- z)) as [k Hk].
    { split; [lia|]. change (10 ^ Z.of_nat 20) with 100000000000000000000. lia. }
    specialize (Hk 0 ""). rewrite Heq in Hk |- *.
    unfold Atoi. change (Ascii.eqb "-" "-") with true. cbn [orb].
    rewrite Hk. cbn [parse_digits].
    replace (0 * 10 ^ Z.of_nat k + - z) with (- z) by lia.
    replace (- - z) with z by lia. unfold is_int.
    replace ((- 2 ^ 63 <=? z) && (z <? 2 ^ 63)) with true; [done|].
    symmetry. apply andb_true_iff.
    change (2 ^ 63) with 9223372036854775808.
    split; [apply Z.leb_le|apply Z.ltb_lt]; lia.
  - apply Atoi_itoa. change (2 ^ 63) with 9223372036854775808. lia.
Qed.

Lemma append_cancel_l (s a b : string) : s +:+ a = s +:+ b -> a = b.
Proof. induction s as [|c s IH]; simpl; intros E; [done|]. injection E. auto. Qed.

(** X9. Two consumers built in the same second by the same process get
    different client ids when their [Id] differ: [client.id] is
    [rdkafka-<seconds>-<pid>-<Id>] and determines [Id]. *)
Theorem X9_client_id_tells_consumers_apart p p' now pid Id Id' :
  is_int Id = true -> is_int Id' = true ->
  new_config p now pid Id !! "client.id" = new_config p' now pid Id' !! "client.id" ->
  Id = Id'.
Proof.
  intros HId HId' E.
  assert (Hget : forall q i, new_config q now pid i !! "client.id"
            = Some (CStr ("rdkafka-" +:+ itoa now +:+ "-" +:+ itoa pid +:+ "-"
                          +:+ itoa i))) by reflexivity.
  rewrite !Hget in E. injection E as E.
  do 5 apply append_cancel_l in E.
  apply (f_equal Atoi) in E. rewrite !Atoi_itoa_int in E by done.
  by injection E.
Qed.

End ClientId.

(** * The Swagger objects *)

Section SwaggerFacts.
Import Swagger.

Lemma append_assoc (a b c : string) : (a +:+ b) +:+ c = a +:+ b +:+ c.
Proof.
  induction a as [|x a IH]; [done|].
  change (String x ((a +:+ b) +:+ c) = String x (a +:+ b +:+ c)). by f_equal.
Qed.

Lemma append_empty_r (a : string) : a +:+ "" = a.
Proof.
  induction a as [|x a IH]; [done|].
  change (String x (a +:+ "") = String x a). by f_equal.
Qed.

Section Order.
Context {fields : SummaryFields}.

Lemma summary_less_rank (si sj : string) :
  summary_less si sj = rank_before (summary_rank si) (summary_rank sj).
Proof.
  unfold summary_less, summary_rank.
  destruct (FieldsFunc si) as [|fi rsi]; simpl; [done|].
  destruct (FieldsFunc sj) as [|fj rsj]; simpl.
  { by destruct (Go.Atoi fi). }
  destruct (Go.Atoi fi) as [i|], (Go.Atoi fj) as [j|]; simpl; try done.
Qed.

(** X10. The comparison that [swaggerPathsObject.MarshalJSON] gives to
    [sort.Slice] (lines 364-393) is a strict weak ordering of the
    summaries: nothing is before itself, and both "before" and "not
    before" are transitive.  It depends on the class of the summary alone
    (first field a number, first field something else, no field), so the
    comparison of the summaries as strings at the end of the function is
    never reached. *)
Theorem X10_summary_order_is_strict_weak :
  (forall si sj, summary_less si sj
                 = rank_before (summary_rank si) (summary_rank sj))
  /\ (forall s, summary_less s s = false)
  /\ (forall a b c, summary_less a b = true -> summary_less b c = true ->
                    summary_less a c = true)
  /\ (forall a b c, summary_less a b = false -> summary_less b c = false ->
                    summary_less a c = false).
Proof.
  split; [apply summary_less_rank|].
  split; [|split].
  - intros s. rewrite summary_less_rank.
    destruct (summary_rank s); simpl; [lia | done | done].
  - intros a b c. rewrite !summary_less_rank.
    destruct (summary_rank a), (summary_rank b), (summary_rank c);
      simpl; try done; lia.
  - intros a b c. rewrite !summary_less_rank.
    destruct (summary_rank a), (summary_rank b), (summary_rank c);
      simpl; try done; lia.
Qed.

End Order.

Lemma concat_with_commas (s : string) (ss : list string) :
  String.concat "," (s :: ss) = s +:+ with_commas ss.
Proof.
  revert s. induction ss as [|t ss IH]; intros s.
  - simpl. by rewrite append_empty_r.
  - change (String.concat "," (s :: t :: ss))
      with (s +:+ "," +:+ String.concat "," (t :: ss)).
    by rewrite IH.
Qed.

Section PropertiesFacts.
Context {V : Type} {marshal_string : JsonMarshal string}
        {marshal_value : JsonMarshal V}.

Lemma write_properties_later (op : list (keyVal V)) (i : nat) (buf : string) :
  write_properties (S i) op buf
  = match all_entries property_entry op with
    | Err e => Err e
    | Ok ss => Ok (buf +:+ with_commas ss)
    end.
Proof.
  revert i buf. induction op as [|kv op IH]; intros i buf; simpl.
  - by rewrite append_empty_r.
  - unfold property_entry.
    destruct (json_Marshal (Key kv)) as [key|e]; [|done].
    destruct (json_Marshal (Value kv)) as [val|e]; [|done].
    rewrite IH.
    destruct (all_entries _ op) as [ss|e]; [|done].
    simpl. by rewrite !append_assoc.
Qed.

(** X11. [swaggerSchemaObjectProperties.MarshalJSON] (lines 511-533)
    writes an opening brace, the entries [key:value] in the order of the
    slice with one comma between two of them (none in front, none at the
    end), and a closing brace; it returns the first error of
    [json.Marshal], keys before values, and nothing else in that case. *)
Theorem X11_properties_are_written_in_order (op : list (keyVal V)) :
  properties_MarshalJSON op
  = match all_entries property_entry op with
    | Err e => Err e
    | Ok ss => Ok ("{" +:+ String.concat "," ss +:+ "}")
    end.
Proof.
  unfold properties_MarshalJSON.
  destruct op as [|kv op]; [done|].
  cbn [write_properties all_entries]. unfold property_entry.
  change (negb (0 =? 0)%nat) with false. cbv iota.
  destruct (json_Marshal (Key kv)) as [key|e]; [|done].
  destruct (json_Marshal (Value kv)) as [val|e]; [|done].
  rewrite write_properties_later.
  destruct (all_entries _ op) as [ss|e]; [|done].
  rewrite concat_with_commas. by rewrite !append_assoc.
Qed.

End PropertiesFacts.

Section PathsFacts.
Context {fields : SummaryFields} {sorter : SliceSort}.
Context {marshal_string : JsonMarshal string}
        {marshal_item : JsonMarshal swaggerPathItemObject}.

Lemma collect_paths (kvs : list (string * swaggerPathItemObject))
    (psv : list swaggerPathSummary) :
  ps_Path <$> collect kvs psv
  = (ps_Path <$> psv) ++ filter (fun k => k <> "") (kvs.*1).
Proof.
  revert psv. induction kvs as [|[k v] kvs IH]; intros psv; simpl.
  - by rewrite app_nil_r.
  - destruct k as [|c k]; simpl.
    + rewrite IH. by rewrite filter_cons_False by (intros H; by apply H).
    + rewrite IH, fmap_app. simpl.
      rewrite filter_cons_True by done. by rewrite <- app_assoc.
Qed.

Lemma collect_summaries (kvs : list (string * swaggerPathItemObject))
    (psv : list swaggerPathSummary) (po : gmap string swaggerPathItemObject) :
  Forall (fun kv => po !! kv.1 = Some kv.2) kvs ->
  Forall (fun ps => exists v, po !! ps_Path ps = Some v
                              /\ ps_Summary ps = path_summary (ps_Path ps) v) psv ->
  Forall (fun ps => exists v, po !! ps_Path ps = Some v
                              /\ ps_Summary ps = path_summary (ps_Path ps) v)
         (collect kvs psv).
Proof.
  revert psv. induction kvs as [|[k v] kvs IH]; intros psv Hkvs Hpsv; simpl.
  - done.
  - apply Forall_cons in Hkvs as [Hk Hkvs]. simpl in Hk.
    case_match; [by apply IH|].
    apply IH; [done|]. apply Forall_app. split; [done|].
    apply Forall_singleton. by exists v.
Qed.

Lemma write_paths_later (po : gmap string swaggerPathItemObject)
    (psv : list swaggerPathSummary) (i : nat) (buf : string) :
  Forall (fun ps => ps_Path ps <> "") psv ->
  write_paths po (S i) psv buf
  = match all_entries (path_entry po) psv with
    | Err e => Err e
    | Ok ss => Ok (buf +:+ with_commas ss)
    end.
Proof.
  revert i buf. induction psv as [|ps psv IH]; intros i buf Hne; simpl.
  - by rewrite append_empty_r.
  - apply Forall_cons in Hne as [Hps Hne].
    destruct (ps_Path ps) as [|c path] eqn:Hpath; [done|]. simpl.
    unfold path_entry. rewrite Hpath.
    destruct (json_Marshal (String c path)) as [key|e]; [|done].
    destruct (json_Marshal (default _ _)) as [val|e]; [|done].
    rewrite IH by done.
    destruct (all_entries _ psv) as [ss|e]; [|done].
    simpl. by rewrite !append_assoc.
Qed.

Lemma write_paths_first (po : gmap string swaggerPathItemObject)
    (psv : list swaggerPathSummary) :
  Forall (fun ps => ps_Path ps <> "") psv ->
  match write_paths po 0 psv "{" with
  | Err e => Err e
  | Ok buf => Ok (buf +:+ "}")
  end
  = match all_entries (path_entry po) psv with
    | Err e => Err e
    | Ok ss => Ok ("{" +:+ String.concat "," ss +:+ "}")
    end.
Proof.
  intros Hne. destruct psv as [|ps psv]; [done|].
  apply Forall_cons in Hne as [Hps Hne].
  cbn [write_paths all_entries].
  destruct (ps_Path ps) as [|c path] eqn:Hpath; [done|].
  unfold path_entry. rewrite Hpath.
  change (String.length (String c path) =? 0)%nat with false.
  change (negb (0 =? 0)%nat) with false. cbv iota.
  destruct (json_Marshal (String c path)) as [key|e]; [|done].
  destruct (json_Marshal (default _ _)) as [val|e]; [|done].
  rewrite write_paths_later by done.
  destruct (all_entries _ psv) as [ss|e]; [|done].
  rewrite concat_with_commas. by rewrite !append_assoc.
Qed.

(** X12. When [sort.Slice] returns a permutation of its slice, the object written by
    [swaggerPathsObject.MarshalJSON] (lines 336-423) holds, whatever the
    order in which [range] went through the map, one entry for each path
    of the map but the empty one, which is left out; each entry is the
    path and the item that the map has for it, in the order that
    [sort.Slice] made, with one comma between two entries.  The first
    error of [json.Marshal] is returned alone. *)
Theorem X12_every_named_path_is_written_once
    (po : gmap string swaggerPathItemObject)
    (kvs : list (string * swaggerPathItemObject)) :
  kvs ≡ₚ map_to_list po ->
  sort_Slice _ (fun a b => summary_less (ps_Summary a) (ps_Summary b))
    (collect kvs []) ≡ₚ collect kvs [] ->
  exists psv,
    psv = sort_Slice _ (fun a b => summary_less (ps_Summary a) (ps_Summary b))
            (collect kvs [])
    /\ paths_MarshalJSON po kvs
    = match all_entries (path_entry po) psv with
      | Err e => Err e
      | Ok ss => Ok ("{" +:+ String.concat "," ss +:+ "}")
      end
    /\ NoDup (ps_Path <$> psv)
    /\ (forall k, k ∈ ps_Path <$> psv <-> k <> "" /\ is_Some (po !! k))
    /\ Forall (fun ps => exists v, po !! ps_Path ps = Some v
                                   /\ ps_Summary ps = path_summary (ps_Path ps) v)
              psv.
Proof.
  intros Hkvs Hsort.
  set (less := fun a b => summary_less (ps_Summary a) (ps_Summary b)).
  exists (sort_Slice _ less (collect kvs [])).
  assert (Hpaths : ps_Path <$> sort_Slice _ less (collect kvs [])
                   ≡ₚ filter (fun k => k <> "") (kvs.*1)).
  { fold less in Hsort. rewrite Hsort. by rewrite collect_paths. }
  assert (Hkeys : kvs.*1 ≡ₚ (map_to_list po).*1) by by rewrite Hkvs.
  assert (Hnodup : NoDup (kvs.*1)).
  { rewrite Hkeys. apply NoDup_fst_map_to_list. }
  assert (Hin : forall k, k ∈ ps_Path <$> sort_Slice _ less (collect kvs [])
                          <-> k <> "" /\ is_Some (po !! k)).
  { intros k. rewrite Hpaths, list_elem_of_filter, Hkeys.
    rewrite list_elem_of_fmap. split.
    - intros [Hk [[k' v] [-> Hkv]]]. split; [done|].
      apply elem_of_map_to_list in Hkv. by exists v.
    - intros [Hk [v Hv]]. split; [done|]. exists (k, v). split; [done|].
      by apply elem_of_map_to_list. }
  split; [done|]. split; [|split; [|split]].
  - unfold paths_MarshalJSON. fold less. apply write_paths_first.
    apply Forall_forall. intros ps Hps.
    assert (Hk : ps_Path ps ∈ ps_Path <$> sort_Slice _ less (collect kvs []))
      by (apply list_elem_of_fmap; by exists ps).
    by apply Hin in Hk as [Hk _].
  - rewrite Hpaths. by apply NoDup_filter.
  - done.
  - fold less in Hsort. rewrite Hsort.
    apply collect_summaries; [|done].
    apply Forall_forall. intros [k v] Hkv. simpl.
    rewrite Hkvs in Hkv. by apply elem_of_map_to_list in Hkv.
Qed.

End PathsFacts.

End SwaggerFacts.

(** ** The further theorems at sample inputs *)


Lemma X2_witness :
  sample_heap p_four !! 1%nat = Some p_four
  /\ NewConsumer (transport := sample_transport) 1700000000 4242
       (sample_heap p_four) 1%nat 7 = Some (Ok (built p_four))
  /\ (exec (walk := sample_walk) (sample_schedule 4 2) (built p_four)
      = Some (ran p_four (sample_schedule 4 2))
      /\ closing (ran p_four (sample_schedule 4 2)) = CloseReturned
      /\ loop (ran p_four (sample_schedule 4 2)) = Finished
      /\ filter (fun c => c = CloseConsumer) (calls (ran p_four (sample_schedule 4 2)))
         = [CloseConsumer])
  /\ (exec (walk := sample_walk) sample_half_closed (built p_four)
      = Some (ran p_four sample_half_closed)
      /\ closing (ran p_four sample_half_closed) = CloseQueues 2
      /\ closed <$> queuelist (hd (ran p_four sample_half_closed))
         = [true; true; false; false]
      /\ forall j q, queuelist (hd (ran p_four sample_half_closed)) !! j = Some q ->
           closed q = bool_decide (j < 2)%nat).
Proof.
  assert (H1 : sample_heap p_four !! 1%nat = Some p_four) by evaluate.
  assert (H2 : NewConsumer (transport := sample_transport) 1700000000 4242
                 (sample_heap p_four) 1%nat 7 = Some (Ok (built p_four)))
    by evaluate.
  split; [exact H1|]. split; [exact H2|]. split.
  - assert (H3 : exec (walk := sample_walk) (sample_schedule 4 2) (built p_four)
                 = Some (ran p_four (sample_schedule 4 2))) by evaluate.
    assert (H4 : closing (ran p_four (sample_schedule 4 2)) = CloseReturned)
      by evaluate.
    split; [exact H3|]. split; [exact H4|].
    destruct (X2_close_returns_after_the_loop (walk := sample_walk) 1700000000 4242
                (sample_heap p_four) 1%nat 7 p_four (built p_four)
                (sample_schedule 4 2) (ran p_four (sample_schedule 4 2)) H1 H2 H3)
      as [Hret _].
    destruct (Hret H4) as (Hloop & _ & _ & _ & Hcalls).
    split; [exact Hloop|exact Hcalls].
  - assert (H3 : exec (walk := sample_walk) sample_half_closed (built p_four)
                 = Some (ran p_four sample_half_closed)) by evaluate.
    assert (H4 : queues_closed (ran p_four sample_half_closed) = 2%nat)
      by evaluate.
    split; [exact H3|]. split; [evaluate|]. split; [evaluate|].
    destruct (X2_close_returns_after_the_loop (walk := sample_walk) 1700000000 4242
                (sample_heap p_four) 1%nat 7 p_four (built p_four)
                sample_half_closed (ran p_four sample_half_closed) H1 H2 H3)
      as (_ & _ & Horder & _).
    intros j q Hq. rewrite (Horder j q Hq), H4. reflexivity.
Defined.

Lemma X3_witness :
  sample_heap p_four !! 1%nat = Some p_four
  /\ ThreadNum p_four < 2 ^ 31
  /\ NewConsumer (transport := sample_transport) 1700000000 4242
       (sample_heap p_four) 1%nat 7 = Some (Ok (built p_four))
  /\ Forall (fun l => forall m, carried l = Some m -> 0 <= Partition m)
       sample_two_enqueued
  /\ exec (walk := sample_walk) sample_two_enqueued (built p_four)
     = Some (ran p_four sample_two_enqueued)
  /\ loop (ran p_four sample_two_enqueued) <> Crashed.
Proof.
  assert (H1 : sample_heap p_four !! 1%nat = Some p_four) by evaluate.
  assert (H2 : ThreadNum p_four < 2 ^ 31) by evaluate.
  assert (H3 : NewConsumer (transport := sample_transport) 1700000000 4242
                 (sample_heap p_four) 1%nat 7 = Some (Ok (built p_four)))
    by evaluate.
  assert (H4 : Forall (fun l => forall m, carried l = Some m -> 0 <= Partition m)
                 sample_two_enqueued).
  { unfold sample_two_enqueued.
    repeat (apply Forall_cons; split;
            [intros m Hm; simpl in Hm; try discriminate Hm;
             injection Hm as <-; evaluate|]).
    apply Forall_nil_2. }
  assert (H5 : exec (walk := sample_walk) sample_two_enqueued (built p_four)
               = Some (ran p_four sample_two_enqueued)) by evaluate.
  split; [exact H1|]. split; [exact H2|]. split; [exact H3|].
  split; [exact H4|]. split; [exact H5|].
  exact (X3_dispatcher_never_panics (walk := sample_walk) 1700000000 4242
           (sample_heap p_four) 1%nat 7 p_four (built p_four)
           sample_two_enqueued (ran p_four sample_two_enqueued) H1 H2 H3 H4 H5).
Defined.

Lemma X4_witness :
  sample_heap p_four !! 1%nat = Some p_four
  /\ (forall m, exists err, Dealhanle p_four m = Returned err)
  /\ NewConsumer (transport := sample_transport) 1700000000 4242
       (sample_heap p_four) 1%nat 7 = Some (Ok (built p_four))
  /\ exec (walk := sample_walk) sample_drained (built p_four)
     = Some (ran p_four sample_drained)
  /\ workers (ran p_four sample_drained) !! 1%nat = Some Gone
  /\ waiting 1 (ran p_four sample_drained) = []
  /\ invoked_by 1 (ran p_four sample_drained)
     = sent_to (walk := sample_walk) (effective p_four) 1 (ran p_four sample_drained)
  /\ invoked_by 1 (ran p_four sample_drained) = [keyless 1; keyless 1].
Proof.
  assert (H1 : sample_heap p_four !! 1%nat = Some p_four) by evaluate.
  assert (H2 : forall m, exists err, Dealhanle p_four m = Returned err)
    by (intros m; exists None; reflexivity).
  assert (H3 : NewConsumer (transport := sample_transport) 1700000000 4242
                 (sample_heap p_four) 1%nat 7 = Some (Ok (built p_four)))
    by evaluate.
  assert (H4 : exec (walk := sample_walk) sample_drained (built p_four)
               = Some (ran p_four sample_drained)) by evaluate.
  assert (H5 : workers (ran p_four sample_drained) !! 1%nat = Some Gone)
    by evaluate.
  split; [exact H1|]. split; [exact H2|]. split; [exact H3|].
  split; [exact H4|]. split; [exact H5|].
  destruct (X4_nothing_is_lost_at_shutdown (walk := sample_walk) 1700000000 4242
              (sample_heap p_four) 1%nat 7 p_four (built p_four)
              sample_drained (ran p_four sample_drained) 1%nat H1 H2 H3 H4 H5)
    as [Hwait Hall].
  split; [exact Hwait|]. split; [exact Hall|evaluate].
Defined.

Lemma X5_witness :
  sample_heap p_channel !! 1%nat = Some p_channel
  /\ NewConsumer (transport := sample_transport) 1700000000 4242
       (sample_heap p_channel) 1%nat 7 = Some (Ok (built p_channel))
  /\ exec (walk := sample_walk) sample_started (built p_channel)
     = Some (ran p_channel sample_started)
  /\ closing (ran p_channel sample_started) = CloseNotCalled
  /\ loop (ran p_channel sample_started) = Awaiting 0
  /\ ConsumerMode p_channel = 1
  /\ close_labels (effective p_channel) (loop (ran p_channel sample_started))
     = [LCloseBegin; LCloseSignal; LExit; LLoopExit; LCloseWaited;
        LCloseQueue; LCloseQueue; LCloseQueue; LCloseQueue;
        LCloseTransport; LCloseEnd]
  /\ exists s',
       exec (walk := sample_walk)
         (close_labels (effective p_channel) (loop (ran p_channel sample_started)))
         (ran p_channel sample_started) = Some s'
       /\ closing s' = CloseReturned /\ loop s' = Finished
       /\ commits s' = 0%nat.
Proof.
  assert (H1 : sample_heap p_channel !! 1%nat = Some p_channel) by evaluate.
  assert (H2 : NewConsumer (transport := sample_transport) 1700000000 4242
                 (sample_heap p_channel) 1%nat 7 = Some (Ok (built p_channel)))
    by evaluate.
  assert (H3 : exec (walk := sample_walk) sample_started (built p_channel)
               = Some (ran p_channel sample_started)) by evaluate.
  assert (H4 : closing (ran p_channel sample_started) = CloseNotCalled)
    by evaluate.
  assert (H5 : loop (ran p_channel sample_started) = Awaiting 0) by evaluate.
  assert (H6 : ConsumerMode p_channel = 1) by reflexivity.
  split; [exact H1|]. split; [exact H2|]. split; [exact H3|].
  split; [exact H4|]. split; [exact H5|]. split; [exact H6|].
  split; [evaluate|].
  destruct (X5_close_returns_when_the_loop_is_idle (walk := sample_walk)
              1700000000 4242 (sample_heap p_channel) 1%nat 7 p_channel
              (built p_channel) sample_started (ran p_channel sample_started) 0
              H1 H2 H3 H4 (or_intror (conj H5 (or_intror H6))))
    as (s' & Hs & Hc & Hl & Hn).
  exists s'. split; [exact Hs|]. split; [exact Hc|]. split; [exact Hl|exact Hn].
Defined.

Lemma X6_witness :
  loop (ran p_panic sample_stalled) = Sending 0 msgD 1
  /\ chan_at (hd (ran p_panic sample_stalled)) 1
     = Some {| buf := [msgB; msgC]; cap := 2; closed := false |}
  /\ workers (ran p_panic sample_stalled) !! Z.to_nat 1 = Some Gone
  /\ wg (hd (ran p_panic sample_stalled)) = 1
  /\ close_pending (closing (ran p_panic sample_stalled)) = true
  /\ exec (walk := sample_walk) sample_retries (ran p_panic sample_stalled)
     = Some (ran p_panic (sample_stalled ++ sample_retries))
  /\ loop (ran p_panic (sample_stalled ++ sample_retries)) = Sending 0 msgD 1
  /\ sent (ran p_panic (sample_stalled ++ sample_retries))
     = sent (ran p_panic sample_stalled).
Proof.
  assert (H1 : loop (ran p_panic sample_stalled) = Sending 0 msgD 1) by evaluate.
  assert (H2 : chan_at (hd (ran p_panic sample_stalled)) 1
               = Some {| buf := [msgB; msgC]; cap := 2; closed := false |})
    by evaluate.
  assert (H3 : workers (ran p_panic sample_stalled) !! Z.to_nat 1 = Some Gone)
    by evaluate.
  assert (H4 : wg (hd (ran p_panic sample_stalled)) = 1) by evaluate.
  assert (H5 : close_pending (closing (ran p_panic sample_stalled)) = true)
    by evaluate.
  assert (H6 : exec (walk := sample_walk) sample_retries
                 (ran p_panic sample_stalled)
               = Some (ran p_panic (sample_stalled ++ sample_retries)))
    by evaluate.
  split; [exact H1|]. split; [exact H2|]. split; [exact H3|].
  split; [exact H4|]. split; [exact H5|]. split; [exact H6|].
  destruct (X6_dead_worker_stalls_the_dispatcher (walk := sample_walk)
              (ran p_panic sample_stalled) 0 msgD 1
              {| buf := [msgB; msgC]; cap := 2; closed := false |}
              H1 H2 eq_refl eq_refl H3 H4 H5 sample_retries
              (ran p_panic (sample_stalled ++ sample_retries)) H6)
    as (Hloop & Hsent & _ & _).
  split; [exact Hloop|exact Hsent].
Defined.

Lemma X7_witness :
  sample_heap p_sync !! 1%nat = Some p_sync
  /\ NewConsumer (transport := sample_transport) 1700000000 4242
       (sample_heap p_sync) 1%nat 7 = Some (Ok (built p_sync))
  /\ Forall (fun l => forall m, l <> LCommitMessage m) (sample_schedule 4 2)
  /\ exec (walk := sample_walk) (sample_schedule 4 2) (built p_sync)
     = Some (ran p_sync (sample_schedule 4 2))
  /\ committed_messages (ran p_sync (sample_schedule 4 2)) = [keyless 1; keyless 1]
  /\ commits (ran p_sync (sample_schedule 4 2)) = 0%nat.
Proof.
  assert (H1 : sample_heap p_sync !! 1%nat = Some p_sync) by evaluate.
  assert (H2 : NewConsumer (transport := sample_transport) 1700000000 4242
                 (sample_heap p_sync) 1%nat 7 = Some (Ok (built p_sync)))
    by evaluate.
  assert (H3 : Forall (fun l => forall m, l <> LCommitMessage m)
                 (sample_schedule 4 2)).
  { unfold sample_schedule. simpl.
    repeat (apply Forall_cons; split; [intros m; discriminate|]).
    apply Forall_nil_2. }
  assert (H4 : exec (walk := sample_walk) (sample_schedule 4 2) (built p_sync)
               = Some (ran p_sync (sample_schedule 4 2))) by evaluate.
  assert (H5 : sent (ran p_sync (sample_schedule 4 2)) = [keyless 1; keyless 1])
    by evaluate.
  split; [exact H1|]. split; [exact H2|]. split; [exact H3|]. split; [exact H4|].
  destruct (X7_one_commit_per_message_in_mode_1 (walk := sample_walk)
              1700000000 4242 (sample_heap p_sync) 1%nat 7 p_sync (built p_sync)
              (sample_schedule 4 2) (ran p_sync (sample_schedule 4 2)) H1 H2 H3 H4)
    as [Hmsgs Hnone].
  split; [rewrite Hmsgs; exact H5|exact (Hnone eq_refl)].
Defined.

Lemma X8_witness :
  sample_heap p_channel !! 1%nat = Some p_channel
  /\ NewConsumer (transport := sample_transport) 1700000000 4242
       (sample_heap p_channel) 1%nat 7 = Some (Ok (built p_channel))
  /\ exec (walk := sample_walk) sample_rebalance (built p_channel)
     = Some (ran p_channel sample_rebalance)
  /\ calls (ran p_channel sample_rebalance)
     = [SubscribeTopics "events"; Assign [0; 1]; Unassign]
  /\ Forall (fun c => call_fits_mode p_channel c = true)
       (calls (ran p_channel sample_rebalance)).
Proof.
  assert (H1 : sample_heap p_channel !! 1%nat = Some p_channel) by evaluate.
  assert (H2 : NewConsumer (transport := sample_transport) 1700000000 4242
                 (sample_heap p_channel) 1%nat 7 = Some (Ok (built p_channel)))
    by evaluate.
  assert (H3 : exec (walk := sample_walk) sample_rebalance (built p_channel)
               = Some (ran p_channel sample_rebalance)) by evaluate.
  split; [exact H1|]. split; [exact H2|]. split; [exact H3|].
  split; [evaluate|].
  exact (X8_calls_fit_the_consumer_mode (walk := sample_walk) 1700000000 4242
           (sample_heap p_channel) 1%nat 7 p_channel (built p_channel) _ _
           H1 H2 H3).
Defined.

Lemma X9_witness :
  Go.is_int 7 = true
  /\ new_config p_four 1700000000 4242 7 !! "client.id"
     = new_config p_sync 1700000000 4242 7 !! "client.id"
  /\ 7 = 7.
Proof.
  assert (H1 : Go.is_int 7 = true) by evaluate.
  assert (H2 : new_config p_four 1700000000 4242 7 !! "client.id"
               = new_config p_sync 1700000000 4242 7 !! "client.id") by evaluate.
  split; [exact H1|]. split; [exact H2|].
  exact (X9_client_id_tells_consumers_apart p_four p_sync 1700000000 4242 7 7
           H1 H1 H2).
Defined.

Lemma X12_witness :
  SwaggerSamples.sample_pairs ≡ₚ map_to_list SwaggerSamples.sample_paths
  /\ exists psv,
       Swagger.ps_Path <$> psv = ["/users"; "/orders"; "/health"]
       /\ Swagger.paths_MarshalJSON
            (fields := SwaggerSamples.sample_fields)
            (sorter := SwaggerSamples.sample_sort)
            (marshal_string := SwaggerSamples.sample_marshal_string)
            (marshal_item := SwaggerSamples.sample_marshal_item)
            SwaggerSamples.sample_paths SwaggerSamples.sample_pairs
          = match Swagger.all_entries
                    (Swagger.path_entry
                       (marshal_string := SwaggerSamples.sample_marshal_string)
                       (marshal_item := SwaggerSamples.sample_marshal_item)
                       SwaggerSamples.sample_paths) psv with
            | Err e => Err e
            | Ok ss => Ok ("{" +:+ String.concat "," ss +:+ "}")
            end
       /\ NoDup (Swagger.ps_Path <$> psv).
Proof.
  assert (H1 : SwaggerSamples.sample_pairs
               ≡ₚ map_to_list SwaggerSamples.sample_paths).
  { symmetry. apply map_to_list_to_map.
    apply (bool_decide_unpack _). evaluate. }
  assert (H2 : Swagger.sort_Slice (SliceSort := SwaggerSamples.sample_sort) _
                 (fun a b => Swagger.summary_less
                               (fields := SwaggerSamples.sample_fields)
                               (Swagger.ps_Summary a) (Swagger.ps_Summary b))
                 (Swagger.collect SwaggerSamples.sample_pairs [])
               ≡ₚ Swagger.collect SwaggerSamples.sample_pairs []).
  { vm_compute. etrans; [apply perm_swap|]. apply perm_skip, perm_swap. }
  split; [exact H1|].
  destruct (X12_every_named_path_is_written_once
              (fields := SwaggerSamples.sample_fields)
              (sorter := SwaggerSamples.sample_sort)
              (marshal_string := SwaggerSamples.sample_marshal_string)
              (marshal_item := SwaggerSamples.sample_marshal_item)
              SwaggerSamples.sample_paths SwaggerSamples.sample_pairs H1 H2)
    as (psv & Hpsv & Hout & Hnodup & _ & _).
  exists psv. split; [rewrite Hpsv; evaluate|]. split; [exact Hout|exact Hnodup].
Defined.

Lemma X13_witness :
  sample_heap p_panic !! 1%nat = Some p_panic
  /\ ThreadNum p_panic < 2 ^ 31
  /\ NewConsumer (transport := sample_transport) 1700000000 4242
       (sample_heap p_panic) 1%nat 7 = Some (Ok (built p_panic))
  /\ Forall (fun l => forall m, carried l = Some m -> 0 <= Partition m)
       sample_stalled
  /\ exec (walk := sample_walk) sample_stalled (built p_panic)
     = Some (ran p_panic sample_stalled)
  /\ omap carried sample_stalled = [msgA; msgB; msgC; msgD]
  /\ sent (ran p_panic sample_stalled) = [msgA; msgB; msgC]
  /\ in_flight (ran p_panic sample_stalled) = [msgD]
  /\ omap carried sample_stalled
     = sent (ran p_panic sample_stalled) ++ in_flight (ran p_panic sample_stalled).
Proof.
  assert (H1 : sample_heap p_panic !! 1%nat = Some p_panic) by evaluate.
  assert (H2 : ThreadNum p_panic < 2 ^ 31) by evaluate.
  assert (H3 : NewConsumer (transport := sample_transport) 1700000000 4242
                 (sample_heap p_panic) 1%nat 7 = Some (Ok (built p_panic)))
    by evaluate.
  assert (H4 : Forall (fun l => forall m, carried l = Some m -> 0 <= Partition m)
                 sample_stalled).
  { unfold sample_stalled, sample_two_enqueued. simpl.
    repeat (apply Forall_cons; split;
            [intros m Hm; simpl in Hm; try discriminate Hm;
             injection Hm as <-; evaluate|]).
    apply Forall_nil_2. }
  assert (H5 : exec (walk := sample_walk) sample_stalled (built p_panic)
               = Some (ran p_panic sample_stalled)) by evaluate.
  split; [exact H1|]. split; [exact H2|]. split; [exact H3|].
  split; [exact H4|]. split; [exact H5|].
  split; [evaluate|]. split; [evaluate|]. split; [evaluate|].
  exact (X13_messages_are_enqueued_in_arrival_order (walk := sample_walk)
           1700000000 4242 (sample_heap p_panic) 1%nat 7 p_panic (built p_panic)
           sample_stalled (ran p_panic sample_stalled) H1 H2 H3 H4 H5).
Defined.

Lemma X14_witness :
  sample_heap p_other !! 1%nat = Some p_other
  /\ NewConsumer (transport := sample_transport) 1700000000 4242
       (sample_heap p_other) 1%nat 7 = Some (Ok (built p_other))
  /\ exec (walk := sample_walk) sample_started (built p_other)
     = Some (ran p_other sample_started)
  /\ ConsumerMode p_other = 2
  /\ loop (ran p_other sample_started) = Awaiting 0
  /\ Forall (fun l => forall ev, l <> LEvent ev) sample_retries
  /\ exec (walk := sample_walk) sample_retries (ran p_other sample_started)
     = Some (ran p_other (sample_started ++ sample_retries))
  /\ isclose (hd (ran p_other (sample_started ++ sample_retries))) = true
  /\ closing (ran p_other (sample_started ++ sample_retries)) = CloseWaiting
  /\ step (walk := sample_walk) LExit
       (ran p_other (sample_started ++ sample_retries)) = None
  /\ loop (ran p_other (sample_started ++ sample_retries)) = Awaiting 0
  /\ closing (ran p_other (sample_started ++ sample_retries)) <> CloseReturned.
Proof.
  assert (H1 : sample_heap p_other !! 1%nat = Some p_other) by evaluate.
  assert (H2 : NewConsumer (transport := sample_transport) 1700000000 4242
                 (sample_heap p_other) 1%nat 7 = Some (Ok (built p_other)))
    by evaluate.
  assert (H3 : exec (walk := sample_walk) sample_started (built p_other)
               = Some (ran p_other sample_started)) by evaluate.
  assert (H4 : ConsumerMode p_other <> 0) by evaluate.
  assert (H5 : ConsumerMode p_other <> 1) by evaluate.
  assert (H6 : loop (ran p_other sample_started) = Awaiting 0) by evaluate.
  assert (H7 : Forall (fun l => forall ev, l <> LEvent ev) sample_retries).
  { unfold sample_retries.
    repeat (apply Forall_cons; split; [intros ev; discriminate|]).
    apply Forall_nil_2. }
  assert (H8 : exec (walk := sample_walk) sample_retries
                 (ran p_other sample_started)
               = Some (ran p_other (sample_started ++ sample_retries)))
    by evaluate.
  split; [exact H1|]. split; [exact H2|]. split; [exact H3|].
  split; [reflexivity|]. split; [exact H6|]. split; [exact H7|].
  split; [exact H8|]. split; [evaluate|]. split; [evaluate|]. split; [evaluate|].
  destruct (X14_close_waits_for_an_event_in_other_modes (walk := sample_walk)
              1700000000 4242 (sample_heap p_other) 1%nat 7 p_other
              (built p_other) sample_started (ran p_other sample_started) 0
              sample_retries (ran p_other (sample_started ++ sample_retries))
              H1 H2 H3 H4 H5 H6 H7 H8) as (Hl & _ & Hc).
  split; [exact Hl|exact Hc].
Defined.
